(** * OpenAPI-Job: the schema enrichment engine of [parse.js]

    A shallow embedding of [enrichSchema] and of the command line checks
    that run before it ([checkParameters], [configureTargets],
    [checkOutputFileType], [processInputs]).

    The document is a JavaScript object graph: [JSON.parse] and
    [yaml.safeLoad] build objects on the heap and [enrichSchema] mutates
    them in place, so the model keeps an explicit heap of objects and
    values that are either primitives or references into it. *)

From Stdlib Require Import DecimalString DecimalN.
From stdpp Require Import base option list strings sorting relations.
From Stdlib Require Import ZArith NArith Lia.

Open Scope string_scope.
Open Scope list_scope.

(** ** Values and objects *)

Abbreviation loc := nat.

(** A runtime value.  Numbers only matter through their truthiness (a
    parsed document never holds NaN), so an integer stands for them. *)
Inductive value : Type :=
  | VUndefined
  | VNull
  | VBool (b : bool)
  | VNum (n : Z)
  | VStr (s : string)
  | VRef (l : loc).

(** An object: its own enumerable properties in creation order; arrays
    also carry their [length]. *)
Record object : Type := mkObject {
  o_array : bool;
  o_length : N;
  o_props : list (string * value)
}.

Abbreviation heap := (list object).

Global Instance value_eq_dec : EqDecision value.
Proof. solve_decision. Defined.

Global Instance object_eq_dec : EqDecision object.
Proof. solve_decision. Defined.

(** [!v] in a condition is [negb (toBoolean v)]. *)
Definition toBoolean (v : value) : bool :=
  match v with
  | VUndefined | VNull => false
  | VBool b => b
  | VNum n => negb (n =? 0)%Z
  | VStr s => negb (String.eqb s "")
  | VRef _ => true
  end.

(** *** Property keys *)

(** The key a [for ... in] loop yields for position [n] of an array. *)
Definition index_string (n : N) : string :=
  NilZero.string_of_uint (N.to_uint n).

(** A key is an array index when it is the canonical decimal spelling of
    an integer below 2^32 - 1. *)
Definition parse_index (k : string) : option N :=
  match NilZero.uint_of_string k with
  | Some d =>
      let n := N.of_uint d in
      if String.eqb (index_string n) k && (n <? 4294967295)%N
      then Some n else None
  | None => None
  end.

Definition is_index (k : string) : bool :=
  match parse_index k with Some _ => true | None => false end.

Fixpoint lookup_prop (k : string) (ps : list (string * value)) : option value :=
  match ps with
  | [] => None
  | (k', v) :: ps' => if String.eqb k' k then Some v else lookup_prop k ps'
  end.

(** Writing a property keeps the position of a key that exists and
    appends a new key. *)
Fixpoint store_prop (k : string) (x : value) (ps : list (string * value))
  : list (string * value) :=
  match ps with
  | [] => [(k, x)]
  | (k', v) :: ps' =>
      if String.eqb k' k then (k', x) :: ps' else (k', v) :: store_prop k x ps'
  end.

(** [o[k] = x] on an object; an array grows when [k] is an index at or
    past its length.  The engine writes only the key ["x-code-samples"]
    and index keys. *)
Definition obj_set (o : object) (k : string) (x : value) : object :=
  mkObject o.(o_array)
    (if o.(o_array) then
       match parse_index k with
       | Some i => if (o.(o_length) <=? i)%N then (i + 1)%N else o.(o_length)
       | None => o.(o_length)
       end
     else o.(o_length))
    (store_prop k x o.(o_props)).

(** Own property read, as [o[k]] finds it. *)
Definition obj_get (o : object) (k : string) : value :=
  match lookup_prop k o.(o_props) with
  | Some v => v
  | None =>
      if o.(o_array) && String.eqb k "length"
      then VNum (Z.of_N o.(o_length)) else VUndefined
  end.

Definition obj_has_own (o : object) (k : string) : bool :=
  match lookup_prop k o.(o_props) with
  | Some _ => true
  | None => o.(o_array) && String.eqb k "length"
  end.

(** Keys in the order [for ... in] visits them: array indices ascending,
    then the other keys in creation order. *)
Definition own_keys (o : object) : list string :=
  let ks := o.(o_props).*1 in
  (index_string <$> merge_sort N.le (omap parse_index ks))
    ++ filter (fun k => is_index k = false) ks.

Definition string_keys (s : string) : list string :=
  (fun i => index_string (N.of_nat i)) <$> seq 0 (String.length s).

Definition string_get (s : string) (k : string) : value :=
  match parse_index k with
  | Some i =>
      match String.get (N.to_nat i) s with
      | Some c => VStr (String c EmptyString)
      | None => VUndefined
      end
  | None =>
      if String.eqb k "length" then VNum (Z.of_nat (String.length s))
      else VUndefined
  end.

(** ** Errors, log and the state monad *)

Inductive error : Type :=
  | PropertyError (property : string)
  | TypeError
  | GeneratorError.

Inductive MessageType : Type :=
  | Progress | Usage | Complete | Warning | Erroneous.

(** One [console.log] line of [logMessage]: nesting depth, kind, text. *)
Record message : Type := mkMessage {
  m_nesting : nat;
  m_type : MessageType;
  m_text : string
}.

Record state : Type := mkState {
  st_heap : heap;
  st_log : list message
}.

Inductive outcome (A : Type) : Type :=
  | Done (a : A) (s : state)
  | Thrown (e : error) (s : state).
Arguments Done {A} a s.
Arguments Thrown {A} e s.

Definition final_state {A} (r : outcome A) : state :=
  match r with Done _ s => s | Thrown _ s => s end.

Definition M (A : Type) : Type := state -> outcome A.

Definition ret {A} (a : A) : M A := fun s => Done a s.
Definition throw {A} (e : error) : M A := fun s => Thrown e s.
Definition bind {A B} (m : M A) (f : A -> M B) : M B :=
  fun s => match m s with
           | Done a s' => f a s'
           | Thrown e s' => Thrown e s'
           end.

Notation "x <- m ;; k" := (bind m (fun x => k))
  (at level 100, m at next level, right associativity).
Notation "m ;;; k" := (bind m (fun _ => k))
  (at level 100, right associativity).

(** A loop body run for each element in turn; an exception leaves the loop. *)
Fixpoint for_each {A} (xs : list A) (body : A -> M unit) : M unit :=
  match xs with
  | [] => ret tt
  | x :: xs' => body x ;;; for_each xs' body
  end.

(** *** Heap operations *)

(** [v[k]]: reading through [null] or [undefined] throws; a primitive has
    no property of its own but a string's characters and length. *)
Definition Get (v : value) (k : string) : M value := fun s =>
  match v with
  | VUndefined | VNull => Thrown TypeError s
  | VBool _ | VNum _ => Done VUndefined s
  | VStr str => Done (string_get str k) s
  | VRef l =>
      match s.(st_heap) !! l with
      | Some o => Done (obj_get o k) s
      | None => Thrown TypeError s
      end
  end.

(** [v[k] = { ... }] or [v[k] = []] in strict mode: the literal [o] becomes
    a fresh object at the end of the heap and [v[k]] refers to it; creating
    a property on a primitive throws. *)
Definition assign_new (v : value) (k : string) (o : object) : M unit := fun s =>
  match v with
  | VRef l =>
      match s.(st_heap) !! l with
      | Some o0 =>
          Done tt (mkState
                     (<[l := obj_set o0 k (VRef (List.length s.(st_heap)))]>
                        (s.(st_heap) ++ [o]))
                     s.(st_log))
      | None => Thrown TypeError s
      end
  | _ => Thrown TypeError s
  end.

(** A fresh object at the end of the heap. *)
Definition alloc (o : object) : M value := fun s =>
  Done (VRef (List.length s.(st_heap))) (mkState (s.(st_heap) ++ [o]) s.(st_log)).

(** The keys a [for (const k in v)] loop runs over, taken when the loop
    starts; [null], [undefined], numbers and booleans have none. *)
Definition for_in_keys (v : value) : M (list string) := fun s =>
  match v with
  | VRef l =>
      match s.(st_heap) !! l with
      | Some o => Done (own_keys o) s
      | None => Thrown TypeError s
      end
  | VStr str => Done (string_keys str) s
  | _ => Done [] s
  end.

(** [v.hasOwnProperty(k)]: the method is looked up on [v] itself first, so
    a document key named [hasOwnProperty] (never a function in parsed
    data) hides the built-in one and the call throws. *)
Definition hasOwnProperty (v : value) (k : string) : M bool := fun s =>
  match v with
  | VUndefined | VNull => Thrown TypeError s
  | VBool _ | VNum _ => Done false s
  | VStr str =>
      Done (match parse_index k with
            | Some i => (i <? N.of_nat (String.length str))%N
            | None => String.eqb k "length"
            end) s
  | VRef l =>
      match s.(st_heap) !! l with
      | Some o =>
          match lookup_prop "hasOwnProperty" o.(o_props) with
          | Some _ => Thrown TypeError s
          | None => Done (obj_has_own o k) s
          end
      | None => Thrown TypeError s
      end
  end.

Definition logMessage (msg : string) (nesting : nat) (message_method : MessageType)
  : M unit := fun s =>
  Done tt (mkState s.(st_heap) (s.(st_log) ++ [mkMessage nesting message_method msg])).

(** ** The enrichment engine *)

(** One entry of [generatedCode.snippets]. *)
Record snippet : Type := mkSnippet {
  title : string;
  content : string
}.

Definition empty_array : object := mkObject true 0 [].

(** The object literal [{ "lang": snippet.title, "source": snippet.content }]. *)
Definition sample_object (sn : snippet) : object :=
  mkObject false 0 [("lang", VStr sn.(title)); ("source", VStr sn.(content))].

(** [generatedCode.snippets] with the key [for ... in] gives each entry. *)
Definition indexed (snippets : list snippet) : list (N * snippet) :=
  imap (fun i sn => (N.of_nat i, sn)) snippets.

Section Engine.

(** [OpenAPISnippet.getEndpointSnippets(schema, path, method, targets)]:
    the external generator reads the document and either throws
    ([None]) or returns the snippets of the operation. *)
Variable getEndpointSnippets :
  heap -> value -> string -> string -> list string -> option (list snippet).

(** The globals [targets] and [isVerbose] as [enrichSchema] finds them. *)
Variable targets : list string.
Variable isVerbose : bool.

Definition messageIfVerbose (msg : string) (nesting : nat)
    (message_method : MessageType) : M unit :=
  if isVerbose then logMessage msg nesting message_method else ret tt.

Definition call_generator (schema : value) (path method : string)
  : M (list snippet) := fun s =>
  match getEndpointSnippets s.(st_heap) schema path method targets with
  | Some snippets => Done snippets s
  | None => Thrown GeneratorError s
  end.

(** [schema.paths[path][method]] *)
Definition operation (schema : value) (path method : string) : M value :=
  paths <- Get schema "paths" ;;
  item <- Get paths path ;;
  Get item method.

(** [schema.paths[path][method]["x-code-samples"]] *)
Definition code_samples (schema : value) (path method : string) : M value :=
  op <- operation schema path method ;;
  Get op "x-code-samples".

(** Body of the loop over [generatedCode.snippets]. *)
Definition add_snippet (schema : value) (path method : string)
    (entry : N * snippet) : M unit :=
  let snippetIdx := index_string entry.1 in
  let snippet := entry.2 in
  messageIfVerbose ("Checking existance of '" +:+ snippet.(title) +:+ "' field...")
    1 Progress ;;;
  xcs <- code_samples schema path method ;;
  existing <- Get xcs snippetIdx ;;
  if negb (toBoolean existing) then
    messageIfVerbose ("Added '" +:+ snippet.(title) +:+ "' field.") 2 Complete ;;;
    xcs' <- code_samples schema path method ;;
    assign_new xcs' snippetIdx (sample_object snippet)
  else
    logMessage ("Field '" +:+ snippet.(title) +:+ "' already exists in '"
                +:+ path +:+ "' path, skipping.") 2 Warning.

(** Creation of the field when the operation has none. *)
Definition init_code_samples (schema : value) (path method : string) : M unit :=
  xcs <- code_samples schema path method ;;
  if negb (toBoolean xcs) then
    messageIfVerbose "Added 'x-code-samples' field." 1 Complete ;;;
    op <- operation schema path method ;;
    assign_new op "x-code-samples" empty_array
  else
    messageIfVerbose "'x-code-samples' field already exists, skipping." 1 Warning.

(** Body of the loop over the methods of a path. *)
Definition enrich_operation (schema : value) (path method : string) : M unit :=
  generatedCode <- call_generator schema path method ;;
  messageIfVerbose ("Checking existance of 'x-code-samples' field in "
                    +:+ path +:+ " path...") 1 Progress ;;;
  init_code_samples schema path method ;;;
  for_each (indexed generatedCode) (add_snippet schema path method).

(** Body of the loop over the paths. *)
Definition enrich_path (schema : value) (path : string) : M unit :=
  paths <- Get schema "paths" ;;
  item <- Get paths path ;;
  methods <- for_in_keys item ;;
  for_each methods (enrich_operation schema path).

Definition enrichSchema (schema : value) : M value :=
  has <- hasOwnProperty schema "paths" ;;
  if negb has then throw (PropertyError "paths")
  else
    paths <- Get schema "paths" ;;
    keys <- for_in_keys paths ;;
    for_each keys (enrich_path schema) ;;;
    ret schema.

End Engine.

(** ** What a run may write *)

(** The value of [v[k]] in heap [h] where the read does not throw. *)
Definition field (h : heap) (v : value) (k : string) : value :=
  match v with
  | VRef l => match h !! l with Some o => obj_get o k | None => VUndefined end
  | VStr s => string_get s k
  | _ => VUndefined
  end.

(** Whether [v[k]] can be read at all. *)
Definition readable (h : heap) (v : value) : bool :=
  match v with
  | VUndefined | VNull => false
  | VRef l => bool_decide (is_Some (h !! l))
  | _ => true
  end.

(** [schema.paths[path][method]] as a value of the heap. *)
Definition operation_at (h : heap) (schema : value) (path method : string) : value :=
  field h (field h (field h schema "paths") path) method.

(** [l] is an operation object of the document: some
    [schema.paths[path][method]] refers to it. *)
Definition is_operation (h : heap) (schema : value) (l : loc) : Prop :=
  exists path method, operation_at h schema path method = VRef l.

(** [l] is the sequence some operation holds in its ["x-code-samples"]. *)
Definition is_samples (h : heap) (schema : value) (l : loc) : Prop :=
  exists path method,
    field h (operation_at h schema path method) "x-code-samples" = VRef l.

(** The two writes of [enrichSchema]: a fresh empty array stored in the
    ["x-code-samples"] of an operation where that field is falsy, and a
    fresh sample stored at an index of such a sequence where the entry is
    falsy. *)
Inductive write_step (schema : value) (h : heap) : heap -> Prop :=
  | write_field path method l o :
      operation_at h schema path method = VRef l ->
      h !! l = Some o ->
      toBoolean (obj_get o "x-code-samples") = false ->
      write_step schema h
        (<[l := obj_set o "x-code-samples" (VRef (List.length h))]> (h ++ [empty_array]))
  | write_sample path method a o n sn :
      field h (operation_at h schema path method) "x-code-samples" = VRef a ->
      h !! a = Some o ->
      toBoolean (obj_get o (index_string n)) = false ->
      write_step schema h
        (<[a := obj_set o (index_string n) (VRef (List.length h))]>
           (h ++ [sample_object sn])).

(** How a heap [h] may differ from an earlier heap [h0] of the same
    document: every object of [h0] is still there with its keys in place
    and new keys after them; a property changes only from a falsy value
    to a fresh object, and only the ["x-code-samples"] of an operation or
    an index of a sample sequence does; objects that are neither are
    untouched; fresh objects refer to fresh objects only. *)
Record frame (schema : value) (h0 h : heap) : Prop := mkFrame {
  frame_length : List.length h0 <= List.length h;
  frame_old : forall l o,
    h0 !! l = Some o ->
    exists o',
      h !! l = Some o' /\
      o_array o' = o_array o /\
      (exists added, o'.(o_props).*1 = o.(o_props).*1 ++ added) /\
      (forall k,
         lookup_prop k o'.(o_props) = lookup_prop k o.(o_props) \/
         (toBoolean (obj_get o k) = false /\
          (exists r, lookup_prop k o'.(o_props) = Some (VRef r)
                     /\ List.length h0 <= r) /\
          ((k = "x-code-samples" /\ is_operation h0 schema l) \/
           ((exists n, k = index_string n) /\ is_samples h0 schema l)))) /\
      (~ is_operation h0 schema l -> ~ is_samples h0 schema l -> o' = o);
  frame_new : forall l o,
    h !! l = Some o -> List.length h0 <= l ->
    forall k r, lookup_prop k o.(o_props) = Some (VRef r) -> List.length h0 <= r
}.

(** [schema.paths[path][method]["x-code-samples"][i]] as a value of the heap. *)
Definition samples_at (h : heap) (schema : value) (path method : string) : value :=
  field h (operation_at h schema path method) "x-code-samples".

Definition entry_at (h : heap) (schema : value) (path method : string) (i : N)
  : value :=
  field h (samples_at h schema path method) (index_string i).

(** The lines [messageIfVerbose] adds to the log. *)
Definition logged_if (isVerbose : bool) (m : message) : list message :=
  if isVerbose then [m] else [].

Definition checking (sn : snippet) : message :=
  mkMessage 1 Progress ("Checking existance of '" +:+ title sn +:+ "' field...").

(** The keys [for_in_keys] finds for [v] in heap [h]. *)
Definition keys_at (h : heap) (v : value) : option (list string) :=
  match v with
  | VRef l => own_keys <$> h !! l
  | VStr s => Some (string_keys s)
  | _ => Some []
  end.

(** The paths mapping and the path items are objects of the heap that
    are not themselves operations or sample sequences.  A parsed text has
    this shape: each of its objects is reached by one access path only. *)
Definition paths_unshared (h : heap) (schema : value) : Prop :=
  forall l,
    (field h schema "paths" = VRef l \/
     exists path, field h (field h schema "paths") path = VRef l) ->
    is_Some (h !! l) /\ ~ is_operation h schema l /\ ~ is_samples h schema l.

(** No object of the document plays two parts: the paths mapping and the
    path items are not operations or sample sequences, neither is the
    root, and no operation is the sample sequence of an operation.  A
    parsed JSON text has this shape; a YAML text with anchors and
    aliases need not. *)
Definition unshared (h : heap) (schema : value) : Prop :=
  paths_unshared h schema /\
  (forall l, schema = VRef l ->
             ~ is_operation h schema l /\ ~ is_samples h schema l) /\
  (forall l, is_operation h schema l -> ~ is_samples h schema l).

(** The generator answers for every operation as it did in heap [h0],
    in every heap that sample writes lead to from [h0]: creating
    ["x-code-samples"] fields and writing samples does not change what
    it returns.  It may read anything else of the document. *)
Definition ignores_samples
    (getEndpointSnippets :
       heap -> value -> string -> string -> list string -> option (list snippet))
    (schema : value) (targets : list string) (h0 : heap) : Prop :=
  forall h path method,
    rtc (write_step schema) h0 h ->
    getEndpointSnippets h schema path method targets
    = getEndpointSnippets h0 schema path method targets.

(** A computation that, in every heap reached from [h] by sample writes,
    finishes without changing the heap. *)
Definition settled (schema : value) (m : M unit) (h : heap) : Prop :=
  forall st, rtc (write_step schema) h st.(st_heap) ->
    exists st', m st = Done tt st' /\ st'.(st_heap) = st.(st_heap).

(** Object [l] of the heap holds a reference to [r] under key [k]. *)
Definition refers (h : heap) (l : loc) (k : string) (r : loc) : Prop :=
  exists o, h !! l = Some o /\ lookup_prop k o.(o_props) = Some (VRef r).

(** The heap of a parsed text: an object refers only to objects created
    before it, and no object is referred to twice. *)
Record tree_shaped (h : heap) : Prop := mkTree {
  tree_down : forall l k r, refers h l k r -> r < l;
  tree_unique : forall l1 k1 l2 k2 r,
    refers h l1 k1 r -> refers h l2 k2 r -> l1 = l2 /\ k1 = k2
}.

(** The locations a list of values refers to. *)
Definition refs_of (vs : list value) : list loc :=
  omap (fun v => match v with VRef r => Some r | _ => None end) vs.

(** A computation that adds to the log only lines satisfying [Q]. *)
Definition logs_only {A} (Q : message -> Prop) (m : M A) : Prop :=
  forall s, exists ws,
    (final_state (m s)).(st_log) = s.(st_log) ++ ws /\ Forall Q ws.

(** The line logged for an occupied index. *)
Definition skip_notice (m : message) : Prop :=
  m.(m_type) = Warning /\ m.(m_nesting) = 2.

(** The array an operation holds after [n] samples were written into a
    fresh sequence at [a]: entry [i] refers to the object created right
    after the array and the [i] samples before it. *)
Definition samples_array (a : loc) (n : nat) : object :=
  mkObject true (N.of_nat n)
    ((fun i => (index_string (N.of_nat i), VRef (a + 1 + i))) <$> seq 0 n).

(** A computation that leaves the heap as it found it. *)
Definition reads_only {A} (m : M A) : Prop :=
  forall s, (final_state (m s)).(st_heap) = s.(st_heap).

(** A computation whose heap results from the writes above. *)
Definition writes_samples {A} (schema : value) (m : M A) : Prop :=
  forall s, rtc (write_step schema) s.(st_heap) (final_state (m s)).(st_heap).

(** ** Documents as parsed text *)

Set Warnings "-register-all".

(** The data a JSON text denotes. *)
Inductive json : Type :=
  | JNull
  | JBool (b : bool)
  | JNum (n : Z)
  | JStr (s : string)
  | JArr (items : list json)
  | JObj (members : list (string * json)).

Definition array_of (vs : list value) : object :=
  mkObject true (N.of_nat (List.length vs))
    (imap (fun i v => (index_string (N.of_nat i), v)) vs).

Definition object_of (kvs : list (string * value)) : object :=
  fold_left (fun o kv => obj_set o kv.1 kv.2) kvs (mkObject false 0 []).

(** A computation run on each element in turn, collecting the results. *)
Definition map_M {A B} (f : A -> M B) : list A -> M (list B) :=
  fix go (xs : list A) : M (list B) :=
    match xs with
    | [] => ret []
    | x :: xs' => y <- f x ;; ys <- go xs' ;; ret (y :: ys)
    end.

(** [JSON.parse]: every array and object of the text becomes a fresh
    heap object; a repeated key keeps its first position and last value. *)
Fixpoint load (j : json) : M value :=
  match j with
  | JNull => ret VNull
  | JBool b => ret (VBool b)
  | JNum n => ret (VNum n)
  | JStr s => ret (VStr s)
  | JArr items =>
      vs <- map_M load items ;;
      alloc (array_of vs)
  | JObj members =>
      kvs <- map_M (fun m => v <- load m.2 ;; ret (m.1, v)) members ;;
      alloc (object_of kvs)
  end.

(** What [JSON.stringify] shows of a value: array slots up to the length
    (a hole or [undefined] prints as null), object members in key order
    without the undefined ones.  [None] when the fuel runs out or a
    reference dangles. *)
Fixpoint reify (fuel : nat) (h : heap) (v : value) : option json :=
  match fuel with
  | O => None
  | S fuel' =>
      match v with
      | VUndefined | VNull => Some JNull
      | VBool b => Some (JBool b)
      | VNum n => Some (JNum n)
      | VStr s => Some (JStr s)
      | VRef l =>
          match h !! l with
          | None => None
          | Some o =>
              if o.(o_array) then
                JArr <$> mapM (fun i => reify fuel' h (obj_get o (index_string (N.of_nat i))))
                              (seq 0 (N.to_nat o.(o_length)))
              else
                JObj <$> mapM (fun k => pair k <$> reify fuel' h (obj_get o k))
                              (filter (fun k => obj_get o k <> VUndefined) (own_keys o))
          end
      end
  end.

Definition initial_state : state := mkState [] [].

(** The state a parsed document is enriched in, and its root. *)
Definition parsed (d : json) : state := final_state (load d initial_state).

Definition root (d : json) : value :=
  match load d initial_state with Done v _ => v | Thrown _ _ => VUndefined end.

(** No object of the heap refers to [r]. *)
Definition unreferenced (h : heap) (r : loc) : Prop :=
  forall l k, ~ refers h l k r.

(** What loading a text does to the state: the log is kept, the heap
    grows at its end and stays tree shaped, and the new objects refer to
    new objects only. *)
Definition loaded (s s' : state) : Prop :=
  s'.(st_log) = s.(st_log) /\
  (exists new, s'.(st_heap) = s.(st_heap) ++ new) /\
  tree_shaped s'.(st_heap) /\
  (forall l k r, refers s'.(st_heap) l k r ->
                 List.length s.(st_heap) <= l -> List.length s.(st_heap) <= r).

(** A value returned by the loader is a primitive or the object the
    loader created last. *)
Definition fresh_root (s s' : state) (v : value) : Prop :=
  forall r, v = VRef r ->
    List.length s.(st_heap) <= r /\ S r = List.length s'.(st_heap).

(** ** Worked example *)

Module PetsExample.

Definition document : json :=
  JObj [("paths", JObj [("/pets", JObj [("get", JObj [])])])].

Definition generator (_ : heap) (_ : value) (_ _ : string) (_ : list string)
  : option (list snippet) :=
  Some [mkSnippet "shell_curl" "curl ..."].

Definition expected : json :=
  JObj [("paths", JObj [("/pets", JObj [("get",
    JObj [("x-code-samples",
           JArr [JObj [("lang", JStr "shell_curl"); ("source", JStr "curl ...")]])])])])].

(** Parse the document, then enrich it. *)
Definition run (verbose : bool) : outcome value :=
  (schema <- load document ;;
   enrichSchema generator ["shell_curl"] verbose schema) initial_state.

(** The same operation with a field or an entry already in place. *)
Definition with_samples (samples : json) : json :=
  JObj [("paths", JObj [("/pets", JObj [("get",
    JObj [("x-code-samples", samples)])])])].

Definition run_on (d : json) : outcome value :=
  (schema <- load d ;;
   enrichSchema generator ["shell_curl"] false schema) initial_state.

(** A generator that looks at the samples already present: one snippet
    for an operation without a truthy ["x-code-samples"], two for one
    that has it. *)
Definition growing_generator (h : heap) (schema : value) (path method : string)
    (_ : list string) : option (list snippet) :=
  Some (if toBoolean (samples_at h schema path method)
        then [mkSnippet "shell_curl" "curl ..."; mkSnippet "shell_wget" "wget ..."]
        else [mkSnippet "shell_curl" "curl ..."]).

(** A path item with a member that is not an operation. *)
Definition with_summary : json :=
  JObj [("paths", JObj [("/pets", JObj [("summary", JStr "All pets")])])].

Definition manual_sample : json :=
  JObj [("lang", JStr "manual"); ("source", JStr "written by hand")].

(** A document in which the path item of [/b] is the object that is
    also the operation [get] of [/a], as a YAML text with an anchor on
    the operation and an alias for the path item gives:
    [{"paths": {"/a": {"get": OP}, "/b": OP}}] with [OP = {}] at
    location 0 and the root at location 3. *)
Definition aliased : state :=
  mkState
    [ mkObject false 0 [];
      mkObject false 0 [("get", VRef 0)];
      mkObject false 0 [("/a", VRef 1); ("/b", VRef 0)];
      mkObject false 0 [("paths", VRef 2)] ]
    [].

(** An operation with a parameter, and a generator that reads it from
    the document: the snippet names the first parameter of the
    operation. *)
Definition with_parameters : json :=
  JObj [("paths", JObj [("/pets", JObj [("get",
    JObj [("parameters", JArr [JStr "limit"])])])])].

Definition reads_parameters (h : heap) (schema : value) (path method : string)
    (_ : list string) : option (list snippet) :=
  match field h (field h (operation_at h schema path method) "parameters") "0" with
  | VStr name => Some [mkSnippet "shell_curl" ("curl " +:+ path +:+ "?" +:+ name)]
  | _ => Some [mkSnippet "shell_curl" ("curl " +:+ path)]
  end.

End PetsExample.

(** ** The command line checks *)

Definition validTargets : list string :=
  [ "c_libcurl"; "csharp_restsharp"; "go_native"; "java_okhttp"; "java_unirest";
    "javascript_jquery"; "javascript_xhr"; "node_native"; "node_request";
    "node_unirest"; "objc_nsurlsession"; "ocaml_cohttp"; "php_curl"; "php_http1";
    "php_http2"; "python_python3"; "python_requests"; "ruby_native"; "shell_curl";
    "shell_httpie"; "shell_wget"; "swift_nsurlsession" ].

(** Initial value of the global [targets]: the default snippet targets. *)
Definition targets : list string :=
  [ "php_curl"; "javascript_xhr"; "java_okhttp"; "python_requests";
    "python_python3"; "go_native"; "shell_curl" ].

(** [xs.includes(x)] on an array of strings. *)
Definition includes (xs : list string) (x : string) : bool :=
  existsb (String.eqb x) xs.

(** [s.endsWith(suffix)] *)
Definition endsWith (s suffix : string) : bool :=
  let n := String.length s in
  let m := String.length suffix in
  (m <=? n)%nat && String.eqb (String.substring (n - m) m s) suffix.

(** [argv.slice(from, to)] for bounds within the array. *)
Definition slice (from to : nat) (argv : list string) : list string :=
  take (to - from) (drop from argv).

Module Cli.

(** What the process does that the outside can see. *)
Inductive event : Type :=
  | Logged (m : message)
  | ExistsSync (path : string)
  | UnlinkSync (path : string)
  | FileIO (raw_spec_file final_spec_file : string).

(** The globals of the script and the events so far. *)
Record process : Type := mkProcess {
  p_isVerbose : bool;
  p_targets : list string;
  p_trace : list event
}.

Definition start : process := mkProcess false targets [].

(** A function either returns or ends the process through
    [process.exit(code)]. *)
Inductive run (A : Type) : Type :=
  | Continue (a : A) (p : process)
  | Exit (code : nat) (p : process).
Arguments Continue {A} a p.
Arguments Exit {A} code p.

Definition P (A : Type) : Type := process -> run A.

Definition andThen {A B} (m : P A) (f : A -> P B) : P B :=
  fun p => match m p with
           | Continue a p' => f a p'
           | Exit c p' => Exit c p'
           end.

Local Notation "m >> k" := (andThen m (fun _ => k))
  (at level 100, right associativity).

Definition skip : P unit := fun p => Continue tt p.
Definition exit (code : nat) : P unit := fun p => Exit code p.

Definition logMessage (msg : string) (nesting : nat)
    (message_method : MessageType) : P unit := fun p =>
  Continue tt (mkProcess p.(p_isVerbose) p.(p_targets)
                 (p.(p_trace) ++ [Logged (mkMessage nesting message_method msg)])).

Definition usage_text : string :=
  "npm run add-examples <swagger/openapi specification> <output destination> {[targets]} {options}" +:+ String (Ascii.ascii_of_nat 10) "".

Definition set_isVerbose (b : bool) : P unit := fun p =>
  Continue tt (mkProcess b p.(p_targets) p.(p_trace)).

Definition set_targets (ts : list string) : P unit := fun p =>
  Continue tt (mkProcess p.(p_isVerbose) ts p.(p_trace)).

Definition last_arg (argv : list string) : string := List.last argv "".

Definition checkParameters (argv : list string) : P unit :=
  if (List.length argv <? 3)%nat then
    logMessage "Please pass the OpenAPI JSON raw specification file name as argument."
      0 Erroneous >>
    logMessage usage_text 0 Usage >>
    exit 1
  else if (List.length argv <? 4)%nat then
    logMessage "Please specify an output file." 0 Erroneous >>
    logMessage usage_text 0 Usage >>
    exit 1
  else if String.eqb (last_arg argv) "-v" || String.eqb (last_arg argv) "--verbose" then
    logMessage "Switching to verbose logging" 0 Progress >>
    set_isVerbose true
  else skip.

(** [process.argv.slice(4, isVerbose ? process.argv.length - 1 : process.argv.length)] *)
Definition targetsToCheck (argv : list string) (isVerbose : bool) : list string :=
  slice 4 (if isVerbose then List.length argv - 1 else List.length argv) argv.

(** The loop over [targetsToCheck]. *)
Fixpoint check_targets (targetsToCheck : list string) : P unit :=
  match targetsToCheck with
  | [] => skip
  | target :: rest =>
      if negb (includes validTargets target) then
        logMessage ("Target '" +:+ target +:+ "' is not valid") 0 Erroneous >>
        exit 1
      else check_targets rest
  end.

(** [targets.map(v => ' ' + v)] appended to a string: the entries joined
    by commas. *)
Definition listed (ts : list string) : string :=
  String.concat "," ((fun v => " " +:+ v) <$> ts).

Definition configureTargets (argv : list string) : P unit := fun p =>
  (if (4 <? List.length argv)%nat then
     logMessage "Validating targets..." 0 Progress >>
     if String.eqb (nth 4 argv "") "default" then
       logMessage "Default specified, skipping." 1 Complete
     else
       let targetsToCheck := targetsToCheck argv p.(p_isVerbose) in
       check_targets targetsToCheck >>
       set_targets targetsToCheck >>
       logMessage "All specified targets are valid" 1 Complete
   else
     logMessage ("No targets specified, defaulting to internally specified:"
                 +:+ listed p.(p_targets)) 0 Warning) p.

Definition checkOutputFileType (final_spec_file : string) : P unit :=
  if negb (endsWith final_spec_file "json") then
    logMessage "Only JSON format is supported for output." 0 Erroneous >>
    logMessage usage_text 0 Usage >>
    exit 1
  else skip.

Section Pipeline.

(** The stages that touch the file system, [removeExistingFinalSpec]
    and [processSpecificationToFile], are outside the engine; they
    see the file names and the state the checks left. *)
Variable removeExistingFinalSpec : string -> P unit.
Variable processSpecificationToFile : string -> string -> P unit.

Definition processInputs (argv : list string) : P unit :=
  let raw_spec_file := nth 2 argv "" in
  let final_spec_file := nth 3 argv "" in
  checkParameters argv >>
  configureTargets argv >>
  checkOutputFileType final_spec_file >>
  removeExistingFinalSpec final_spec_file >>
  processSpecificationToFile raw_spec_file final_spec_file.

End Pipeline.

(** The three checks that run before any file is touched. *)
Definition checks (argv : list string) : P unit :=
  checkParameters argv >> configureTargets argv >>
  checkOutputFileType (nth 3 argv "").

(** Whether [checkParameters] finds the verbosity flag. *)
Definition verbose_flag (argv : list string) : bool :=
  String.eqb (last_arg argv) "-v" || String.eqb (last_arg argv) "--verbose".

(** No event of the trace touches a file. *)
Definition only_logged (tr : list event) : Prop :=
  Forall (fun e => match e with Logged _ => True | _ => False end) tr.

Definition trace_of {A} (r : run A) : list event :=
  match r with Continue _ p => p.(p_trace) | Exit _ p => p.(p_trace) end.

(** A stage is quiet when it only logs and can only end the process
    with code 1. *)
Definition quiet {A} (m : P A) : Prop :=
  forall p, only_logged p.(p_trace) ->
    only_logged (trace_of (m p)) /\
    (forall c p', m p = Exit c p' -> c = 1).

End Cli.

(** ** The first variant of the script *)

Module CliFirst.
Import Cli.

Local Notation "m >> k" := (andThen m (fun _ => k))
  (at level 100, right associativity).

(** [configureTargets] as the first variant of [parse.js] has it: the
    targets are [process.argv.slice(4)], the verbosity flag included. *)
Definition configureTargets (argv : list string) : P unit := fun p =>
  (if (4 <? List.length argv)%nat then
     logMessage "Validating targets..." 0 Progress >>
     if String.eqb (nth 4 argv "") "default" then
       logMessage "Default specified, skipping." 1 Complete
     else
       let targetsToCheck := drop 4 argv in
       check_targets targetsToCheck >>
       set_targets targetsToCheck >>
       logMessage "All specified targets are valid" 1 Complete
   else
     logMessage ("No targets specified, defaulting to internally specified:"
                 +:+ listed p.(p_targets)) 0 Warning) p.

End CliFirst.

(** ** The stages that read and write files *)

(** [s.replace(/,/g, ", ")] *)
Fixpoint replace_commas (s : string) : string :=
  match s with
  | EmptyString => EmptyString
  | String c rest =>
      if Ascii.eqb c (Ascii.ascii_of_nat 44)
      then String (Ascii.ascii_of_nat 44) (String (Ascii.ascii_of_nat 32)
                                             (replace_commas rest))
      else String c (replace_commas rest)
  end.

(** [s.replace(pattern, replacement)] for a string pattern: the first
    occurrence only.  The replacement is the fingerprint of the document, a
    row of hexadecimal digits, which [replace] inserts as it is. *)
Fixpoint replace_first (pattern replacement s : string) : string :=
  if String.prefix pattern s
  then replacement +:+ String.substring (String.length pattern)
                         (String.length s - String.length pattern) s
  else match s with
       | EmptyString => EmptyString
       | String c rest => String c (replace_first pattern replacement rest)
       end.

(** [generateTreeLines(nesting)]: the prefix of a nested log line. *)
Fixpoint repeat_string (s : string) (n : nat) : string :=
  match n with
  | O => EmptyString
  | S n' => s +:+ repeat_string s n'
  end.

Definition generateTreeLines (nesting : Z) : string :=
  if (0 <? nesting)%Z
  then "|" +:+ repeat_string " |" (Z.to_nat (Z.max 0 (nesting - 1))) +:+ "-->"
  else "".

Module Files.

(** An exception raised in the file stages. *)
Inductive failure : Type :=
  | UnlinkFailed
  | ReadFailed
  | ParseFailed
  | EngineThrew (e : error)
  | NotAFunction
  | WriteFailed.

(** What the stages do that the outside can see. *)
Inductive action : Type :=
  | Logged (m : message)
  | ExistsSync (path : string)
  | UnlinkSync (path : string)
  | ReadFile (path : string)
  | WriteFile (path data : string).

(** The globals [isVerbose] and [targets] as the checks left them, and
    the actions so far. *)
Record world : Type := mkWorld {
  w_isVerbose : bool;
  w_targets : list string;
  w_actions : list action
}.

(** A stage returns, throws where a [catch] can see it, throws inside a
    callback (nothing catches that), or ends the process. *)
Inductive outcome (A : Type) : Type :=
  | Returned (a : A) (w : world)
  | Raised (f : failure) (w : world)
  | Crashed (f : failure) (w : world)
  | Exited (code : nat) (w : world).
Arguments Returned {A} a w.
Arguments Raised {A} f w.
Arguments Crashed {A} f w.
Arguments Exited {A} code w.

Definition T (A : Type) : Type := world -> outcome A.

Definition pure {A} (a : A) : T A := fun w => Returned a w.
Definition raise {A} (f : failure) : T A := fun w => Raised f w.
Definition crash {A} (f : failure) : T A := fun w => Crashed f w.
Definition exit {A} (code : nat) : T A := fun w => Exited code w.

Definition andThen {A B} (m : T A) (f : A -> T B) : T B := fun w =>
  match m w with
  | Returned a w' => f a w'
  | Raised e w' => Raised e w'
  | Crashed e w' => Crashed e w'
  | Exited c w' => Exited c w'
  end.

Local Notation "m >> k" := (andThen m (fun _ => k))
  (at level 100, right associativity).

(** [try { m } catch (e) { handler(e) }] *)
Definition try_catch (m : T unit) (handler : failure -> T unit) : T unit := fun w =>
  match m w with
  | Raised e w' => handler e w'
  | r => r
  end.

(** The body of a callback: what it throws nobody catches. *)
Definition in_callback (m : T unit) : T unit := fun w =>
  match m w with
  | Raised e w' => Crashed e w'
  | r => r
  end.

Definition act (a : action) : T unit := fun w =>
  Returned tt (mkWorld w.(w_isVerbose) w.(w_targets) (w.(w_actions) ++ [a])).

Definition logMessage (msg : string) (nesting : nat) (message_method : MessageType)
  : T unit :=
  act (Logged (mkMessage nesting message_method msg)).

(** An argument that is a string or an array of strings. *)
Inductive argument : Type :=
  | ArgString (s : string)
  | ArgArray (xs : list string).

Definition world_of {A} (r : outcome A) : world :=
  match r with
  | Returned _ w' | Raised _ w' | Crashed _ w' | Exited _ w' => w'
  end.

(** The files written by a list of actions. *)
Definition written (actions : list action) : list (string * string) :=
  omap (fun a => match a with WriteFile p d => Some (p, d) | _ => None end) actions.

Section World.

(** The file system and the libraries. *)
Variable existsSync : string -> bool.
(** [fs.unlinkSync] returns ([true]) or throws. *)
Variable unlinkSync : string -> bool.
(** [fs.readFileSync] and [fs.readFile]: the content, or an error. *)
Variable readFile : string -> option string.
(** [yaml.safeLoad]: throws ([None]), or gives a document, which is
    [undefined] for an empty text. *)
Variable safeLoad : string -> option (option json).
(** [JSON.parse] *)
Variable parse : string -> option json.
Variable getEndpointSnippets :
  heap -> value -> string -> string -> list string -> option (list snippet).
(** [hash(schema)] and [JSON.stringify(schema)] *)
Variable hash : heap -> value -> string.
Variable stringify : heap -> value -> string.
(** Whether [fs.writeFile] reports success to its callback. *)
Variable writeFile : string -> string -> bool.
(** What [console.log] prints for an error. *)
Variable describe : failure -> string.

(** [removeExistingFinalSpec(final_spec_file)], with the global
    [specPath]. *)
Definition removeExistingFinalSpec (specPath final_spec_file : string) : T unit :=
  try_catch
    (logMessage "Checking if specification.json exists" 0 Progress >>
     act (ExistsSync ("./" +:+ specPath)) >>
     if existsSync ("./" +:+ specPath) then
       logMessage (final_spec_file +:+ " exists, removing...") 1 Progress >>
       act (UnlinkSync ("./" +:+ specPath)) >>
       (if unlinkSync ("./" +:+ specPath) then pure tt else raise UnlinkFailed) >>
       logMessage (final_spec_file +:+ " removed") 1 Complete
     else
       logMessage (final_spec_file +:+ " does not exist, continuing") 1 Complete)
    (fun err => logMessage (describe err) 0 Erroneous >> exit 1).

(** [enrichSchema(schema)] on the document a parser returned; the lines
    the engine logs go to the console like the others. *)
Definition enrich (doc : option json) : T (heap * value) := fun w =>
  let loaded :=
    match doc with
    | Some j => load j initial_state
    | None => Done VUndefined initial_state
    end in
  match loaded with
  | Thrown e _ => Raised (EngineThrew e) w
  | Done schema s =>
      let r := enrichSchema getEndpointSnippets w.(w_targets) w.(w_isVerbose) schema s in
      let w' := mkWorld w.(w_isVerbose) w.(w_targets)
                  (w.(w_actions) ++ (Logged <$> (final_state r).(st_log))) in
      match r with
      | Done v s' => Returned (s'.(st_heap), v) w'
      | Thrown e _ => Raised (EngineThrew e) w'
      end
  end.

(** [addSamplesExport(schema, final_spec_file)] *)
Definition addSamplesExport (schema : option json) (final_spec_file : argument)
  : T unit := fun w =>
  (logMessage ("Adding samples for "
               +:+ replace_commas (String.concat "," w.(w_targets)) +:+ "...")
     1 Progress >>
   andThen (enrich schema) (fun enriched =>
     match final_spec_file with
     | ArgString name =>
         let filename_with_hash :=
           replace_first "[contenthash]" (hash enriched.1 enriched.2) name in
         let data := stringify enriched.1 enriched.2 in
         act (WriteFile filename_with_hash data) >>
         if writeFile filename_with_hash data then
           logMessage ("Added samples and exported to: " +:+ name) 2 Complete
         else crash WriteFailed
     | ArgArray _ => raise NotAFunction
     end)) w.

(** [processYAMLSpecification]: it calls
    [addSamplesExport(schema, targets, final_spec_file)], so the parameter
    [final_spec_file] of [addSamplesExport] receives the array [targets]. *)
Definition processYAMLSpecification (raw_spec_file final_spec_file : string)
  : T unit := fun w =>
  (logMessage "Converting YAML file..." 0 Progress >>
   act (ReadFile raw_spec_file) >>
   match readFile raw_spec_file with
   | None => raise ReadFailed
   | Some text =>
       match safeLoad text with
       | None => raise ParseFailed
       | Some schema =>
           logMessage "Converted YAML file" 1 Complete >>
           addSamplesExport schema (ArgArray w.(w_targets))
       end
   end) w.

(** [processJSONSpecification]: all the work is in the callback of
    [fs.readFile]. *)
Definition processJSONSpecification (raw_spec_file final_spec_file : string)
  : T unit :=
  logMessage "Parsing JSON file..." 0 Progress >>
  act (ReadFile raw_spec_file) >>
  in_callback
    match readFile raw_spec_file with
    | None => raise ReadFailed
    | Some data =>
        match parse data with
        | None => raise ParseFailed
        | Some schema =>
            logMessage "Parsed JSON file" 1 Complete >>
            addSamplesExport (Some schema) (ArgString final_spec_file)
        end
    end.

Definition report (e : failure) : T unit :=
  logMessage (describe e) 0 Erroneous >> exit 1.

Definition processSpecificationToFile (raw_spec_file final_spec_file : string)
  : T unit :=
  if endsWith raw_spec_file "yml" || endsWith raw_spec_file "yaml" then
    try_catch (processYAMLSpecification raw_spec_file final_spec_file) report
  else
    try_catch (processJSONSpecification raw_spec_file final_spec_file) report.

End World.

(** No file is written by these actions. *)
Definition no_write (new : list action) : Prop := written new = [].

(** A stage that only appends actions. *)
Definition appends {A} (m : T A) (Q : list action -> Prop) : Prop :=
  forall w, exists new,
    (world_of (m w)).(w_actions) = w.(w_actions) ++ new /\ Q new.

End Files.

(** * Properties of the enrichment engine *)

(** ** Keys and properties *)

Lemma to_uint_not_nil (n : N) : N.to_uint n <> Decimal.Nil.
Proof.
  destruct n as [|p]; [done|].
  intros H. apply (f_equal N.of_uint) in H.
  by rewrite DecimalN.Unsigned.of_to in H.
Qed.

Lemma parse_index_string (n : N) :
  (n < 4294967295)%N -> parse_index (index_string n) = Some n.
Proof.
  intros Hn. unfold parse_index, index_string.
  rewrite NilZero.usu.
  - cbn zeta. rewrite DecimalN.Unsigned.of_to, String.eqb_refl.
    apply N.ltb_lt in Hn. by rewrite Hn.
  - apply to_uint_not_nil.
Qed.

Lemma parse_index_Some k n : parse_index k = Some n -> k = index_string n.
Proof.
  unfold parse_index. destruct (NilZero.uint_of_string k) as [d|]; [|done].
  cbn zeta. destruct (String.eqb_spec (index_string (N.of_uint d)) k); [|done].
  cbn. case_match; [|done]. by intros [= <-].
Qed.

Lemma index_string_inj n m : index_string n = index_string m -> n = m.
Proof.
  unfold index_string. intros H.
  apply (f_equal NilZero.uint_of_string) in H.
  rewrite !NilZero.usu in H by apply to_uint_not_nil.
  injection H as H. apply (f_equal N.of_uint) in H.
  by rewrite !DecimalN.Unsigned.of_to in H.
Qed.

Lemma index_string_not_samples n : index_string n <> "x-code-samples".
Proof.
  intros H. apply (f_equal NilZero.uint_of_string) in H.
  unfold index_string in H. by rewrite NilZero.usu in H by apply to_uint_not_nil.
Qed.

Lemma lookup_prop_store_eq k x ps : lookup_prop k (store_prop k x ps) = Some x.
Proof.
  induction ps as [|[k' v] ps IH]; cbn.
  - by rewrite String.eqb_refl.
  - destruct (String.eqb_spec k' k) as [->|Hne]; cbn.
    + by rewrite String.eqb_refl.
    + by destruct (String.eqb_spec k' k).
Qed.

Lemma lookup_prop_store_ne k k' x ps :
  k <> k' -> lookup_prop k' (store_prop k x ps) = lookup_prop k' ps.
Proof.
  intros Hne. induction ps as [|[k0 v] ps IH]; cbn.
  - by destruct (String.eqb_spec k k').
  - destruct (String.eqb_spec k0 k) as [->|Hk]; cbn.
    + by destruct (String.eqb_spec k k').
    + by rewrite IH.
Qed.

Lemma store_prop_keys k x ps :
  (store_prop k x ps).*1 = ps.*1 \/
  (lookup_prop k ps = None /\ (store_prop k x ps).*1 = ps.*1 ++ [k]).
Proof.
  induction ps as [|[k0 v] ps IH]; cbn.
  - by right.
  - destruct (String.eqb_spec k0 k) as [->|Hk]; cbn; [by left|].
    destruct IH as [->|[-> ->]]; [by left|by right].
Qed.

Lemma lookup_prop_Some_keys k v ps : lookup_prop k ps = Some v -> k ∈ ps.*1.
Proof.
  induction ps as [|[k0 v0] ps IH]; cbn; [done|].
  destruct (String.eqb_spec k0 k) as [->|Hk].
  - intros _. apply elem_of_cons; by left.
  - intros H. apply elem_of_cons; right; eauto.
Qed.

Lemma lookup_prop_None_keys k ps : lookup_prop k ps = None -> k ∉ ps.*1.
Proof.
  induction ps as [|[k0 v0] ps IH]; cbn; [intros _; apply not_elem_of_nil|].
  destruct (String.eqb_spec k0 k) as [->|Hk]; [done|].
  intros H. apply not_elem_of_cons; split; [done|eauto].
Qed.

Lemma own_keys_elem o k : k ∈ own_keys o <-> k ∈ o.(o_props).*1.
Proof.
  unfold own_keys. rewrite elem_of_app, list_elem_of_fmap, list_elem_of_filter.
  split.
  - intros [(n & -> & Hn)|[_ H]]; [|done].
    rewrite merge_sort_Permutation in Hn.
    apply list_elem_of_omap in Hn as (k' & Hk' & Hp).
    by apply parse_index_Some in Hp as <-.
  - intros Hk. unfold is_index. destruct (parse_index k) as [n|] eqn:E.
    + left. exists n. split; [by apply parse_index_Some|].
      rewrite merge_sort_Permutation. apply list_elem_of_omap. eauto.
    + by right.
Qed.

(** ** Reads *)

Lemma Get_eq v k s :
  Get v k s = if readable s.(st_heap) v then Done (field s.(st_heap) v k) s
              else Thrown TypeError s.
Proof.
  destruct v; cbn; try done.
  case_bool_decide as H.
  - destruct H as [o ->]. done.
  - destruct (st_heap s !! l) eqn:E; [|done]. exfalso; eauto.
Qed.

Lemma Get_Done v k s a s' :
  Get v k s = Done a s' -> s' = s /\ a = field s.(st_heap) v k.
Proof. rewrite Get_eq. case_match; [|done]. by intros [= <- <-]. Qed.

Lemma Get_Thrown v k s e s' : Get v k s = Thrown e s' -> s' = s.
Proof. rewrite Get_eq. case_match; [done|]. by intros [= _ <-]. Qed.

Lemma operation_Done schema path method s a s' :
  operation schema path method s = Done a s' ->
  s' = s /\ a = operation_at s.(st_heap) schema path method.
Proof.
  unfold operation, bind, operation_at.
  destruct (Get schema "paths" s) as [p s1|] eqn:E1; [|done].
  apply Get_Done in E1 as [-> ->].
  destruct (Get _ path s) as [i s2|] eqn:E2; [|done].
  apply Get_Done in E2 as [-> ->].
  apply Get_Done.
Qed.

Lemma operation_Thrown schema path method s e s' :
  operation schema path method s = Thrown e s' -> s' = s.
Proof.
  unfold operation, bind.
  destruct (Get schema "paths" s) as [p s1|] eqn:E1.
  - apply Get_Done in E1 as [-> ->].
    destruct (Get _ path s) as [i s2|] eqn:E2.
    + apply Get_Done in E2 as [-> ->]. apply Get_Thrown.
    + apply Get_Thrown in E2 as ->. by intros [= _ <-].
  - apply Get_Thrown in E1 as ->. by intros [= _ <-].
Qed.

Lemma code_samples_Done schema path method s a s' :
  code_samples schema path method s = Done a s' ->
  s' = s /\
  a = field s.(st_heap) (operation_at s.(st_heap) schema path method) "x-code-samples".
Proof.
  unfold code_samples, bind.
  destruct (operation _ _ _ s) as [op s1|] eqn:E1; [|done].
  apply operation_Done in E1 as [-> ->]. apply Get_Done.
Qed.

Lemma code_samples_Thrown schema path method s e s' :
  code_samples schema path method s = Thrown e s' -> s' = s.
Proof.
  unfold code_samples, bind.
  destruct (operation _ _ _ s) as [op s1|] eqn:E1.
  - apply operation_Done in E1 as [-> ->]. apply Get_Thrown.
  - apply operation_Thrown in E1 as ->. by intros [= _ <-].
Qed.

(** ** Every run is a sequence of sample writes *)

Lemma reads_only_writes {A} schema (m : M A) :
  reads_only m -> writes_samples schema m.
Proof. intros H s. by rewrite H. Qed.

Lemma writes_samples_bind {A B} schema (m : M A) (f : A -> M B) :
  writes_samples schema m -> (forall a, writes_samples schema (f a)) ->
  writes_samples schema (bind m f).
Proof.
  intros Hm Hf s. unfold bind. specialize (Hm s).
  destruct (m s) as [a s1|e s1]; cbn in *; [|done].
  etrans; [exact Hm|apply Hf].
Qed.

Lemma writes_samples_for_each {A} schema (xs : list A) (body : A -> M unit) :
  (forall x, writes_samples schema (body x)) ->
  writes_samples schema (for_each xs body).
Proof.
  intros Hb. induction xs as [|x xs IH]; cbn.
  - by intros s.
  - apply writes_samples_bind; [apply Hb|by intros _].
Qed.

Lemma reads_only_Get v k : reads_only (Get v k).
Proof. intros s. rewrite Get_eq. by case_match. Qed.

Lemma reads_only_logMessage msg n mt : reads_only (logMessage msg n mt).
Proof. by intros s. Qed.

Lemma reads_only_for_in_keys v : reads_only (for_in_keys v).
Proof. intros s. unfold for_in_keys. by repeat case_match. Qed.

Lemma reads_only_hasOwnProperty v k : reads_only (hasOwnProperty v k).
Proof. intros s. unfold hasOwnProperty. by repeat case_match. Qed.

Lemma assign_new_Done v k o s s' :
  assign_new v k o s = Done tt s' ->
  exists l o0,
    v = VRef l /\ s.(st_heap) !! l = Some o0 /\
    s'.(st_heap)
    = <[l := obj_set o0 k (VRef (List.length s.(st_heap)))]> (s.(st_heap) ++ [o]) /\
    s'.(st_log) = s.(st_log).
Proof.
  unfold assign_new. destruct v; try done.
  destruct (st_heap s !! l) as [o0|] eqn:E; [|done].
  intros [= <-]. by exists l, o0.
Qed.

Lemma assign_new_Thrown v k o s e s' :
  assign_new v k o s = Thrown e s' -> s' = s.
Proof.
  unfold assign_new. destruct v; try by intros [= _ <-].
  destruct (st_heap s !! l); [done|]. by intros [= _ <-].
Qed.

Section EngineFacts.

Variable getEndpointSnippets :
  heap -> value -> string -> string -> list string -> option (list snippet).
Variable targets : list string.
Variable isVerbose : bool.
Variable schema : value.

Lemma messageIfVerbose_Done msg n mt s :
  exists s', messageIfVerbose isVerbose msg n mt s = Done tt s'
             /\ s'.(st_heap) = s.(st_heap).
Proof. unfold messageIfVerbose. destruct isVerbose; cbn; eauto. Qed.

Lemma reads_only_messageIfVerbose msg n mt :
  reads_only (messageIfVerbose isVerbose msg n mt).
Proof.
  intros s. destruct (messageIfVerbose_Done msg n mt s) as (s' & -> & H). done.
Qed.

Lemma reads_only_call_generator path method :
  reads_only (call_generator getEndpointSnippets targets schema path method).
Proof. intros s. unfold call_generator. by case_match. Qed.

Lemma writes_samples_init path method :
  writes_samples schema (init_code_samples isVerbose schema path method).
Proof.
  intros s. unfold init_code_samples, bind.
  destruct (code_samples schema path method s) as [xcs s1|e s1] eqn:E1;
    [apply code_samples_Done in E1 as [-> ->]
    |apply code_samples_Thrown in E1 as ->; done].
  destruct (toBoolean _) eqn:Etruthy; cbn [negb].
  { by rewrite reads_only_messageIfVerbose. }
  destruct (messageIfVerbose_Done "Added 'x-code-samples' field." 1 Complete s)
    as (s2 & -> & Hs2).
  destruct (operation schema path method s2) as [op s3|e s3] eqn:E3;
    [apply operation_Done in E3 as [-> ->]
    |apply operation_Thrown in E3 as ->; cbn; by rewrite Hs2].
  destruct (assign_new _ _ _ s2) as [[] s4|e s4] eqn:E4;
    [|apply assign_new_Thrown in E4 as ->; cbn; by rewrite Hs2].
  apply assign_new_Done in E4 as (l & o0 & Hop & Hl & Hheap & _).
  cbn. rewrite Hheap, Hs2 in *. apply rtc_once.
  eapply write_field; [exact Hop|exact Hl|].
  unfold field in Etruthy. rewrite Hop in Etruthy. by rewrite Hl in Etruthy.
Qed.

Lemma writes_samples_add_snippet path method entry :
  writes_samples schema (add_snippet isVerbose schema path method entry).
Proof.
  intros s. unfold add_snippet, bind.
  destruct (messageIfVerbose_Done
              ("Checking existance of '" +:+ title entry.2 +:+ "' field...")
              1 Progress s) as (s1 & -> & Hs1).
  destruct (code_samples schema path method s1) as [xcs s2|e s2] eqn:E2;
    [apply code_samples_Done in E2 as [-> ->]
    |apply code_samples_Thrown in E2 as ->; cbn; by rewrite Hs1].
  destruct (Get _ (index_string entry.1) s1) as [existing s3|e s3] eqn:E3;
    [apply Get_Done in E3 as [-> ->]
    |apply Get_Thrown in E3 as ->; cbn; by rewrite Hs1].
  destruct (toBoolean _) eqn:Etruthy; cbn [negb].
  { cbn. by rewrite Hs1. }
  destruct (messageIfVerbose_Done
              ("Added '" +:+ title entry.2 +:+ "' field.") 2 Complete s1)
    as (s4 & -> & Hs4).
  destruct (code_samples schema path method s4) as [xcs' s5|e s5] eqn:E5;
    [apply code_samples_Done in E5 as [-> ->]
    |apply code_samples_Thrown in E5 as ->; cbn; by rewrite Hs4, Hs1].
  destruct (assign_new _ _ _ s4) as [[] s6|e s6] eqn:E6;
    [|apply assign_new_Thrown in E6 as ->; cbn; by rewrite Hs4, Hs1].
  apply assign_new_Done in E6 as (a & o0 & Hxcs & Ha & Hheap & _).
  cbn. rewrite Hheap, Hs4, Hs1 in *. apply rtc_once.
  eapply write_sample; [exact Hxcs|exact Ha|].
  rewrite Hxcs in Etruthy. unfold field in Etruthy. by rewrite Ha in Etruthy.
Qed.

Lemma writes_samples_enrich_operation path method :
  writes_samples schema
    (enrich_operation getEndpointSnippets targets isVerbose schema path method).
Proof.
  unfold enrich_operation.
  apply writes_samples_bind;
    [apply reads_only_writes, reads_only_call_generator|intros snippets].
  apply writes_samples_bind;
    [apply reads_only_writes, reads_only_messageIfVerbose|intros _].
  apply writes_samples_bind; [apply writes_samples_init|intros _].
  apply writes_samples_for_each. intros entry. apply writes_samples_add_snippet.
Qed.

Lemma writes_samples_enrich_path path :
  writes_samples schema
    (enrich_path getEndpointSnippets targets isVerbose schema path).
Proof.
  unfold enrich_path.
  apply writes_samples_bind; [apply reads_only_writes, reads_only_Get|intros p].
  apply writes_samples_bind; [apply reads_only_writes, reads_only_Get|intros i].
  apply writes_samples_bind;
    [apply reads_only_writes, reads_only_for_in_keys|intros ms].
  apply writes_samples_for_each. intros m. apply writes_samples_enrich_operation.
Qed.

Lemma writes_samples_enrichSchema :
  writes_samples schema
    (enrichSchema getEndpointSnippets targets isVerbose schema).
Proof.
  unfold enrichSchema.
  apply writes_samples_bind;
    [apply reads_only_writes, reads_only_hasOwnProperty|intros has].
  destruct has; cbn [negb]; [|by intros s].
  apply writes_samples_bind; [apply reads_only_writes, reads_only_Get|intros p].
  apply writes_samples_bind;
    [apply reads_only_writes, reads_only_for_in_keys|intros ks].
  apply writes_samples_bind; [|by intros _ s].
  apply writes_samples_for_each. intros path. apply writes_samples_enrich_path.
Qed.

End EngineFacts.

(** ** What sample writes leave in place *)

Lemma obj_get_lookup o k v : lookup_prop k o.(o_props) = Some v -> obj_get o k = v.
Proof. unfold obj_get. by intros ->. Qed.

Lemma obj_get_ref o k r :
  obj_get o k = VRef r -> lookup_prop k o.(o_props) = Some (VRef r).
Proof.
  unfold obj_get. destruct (lookup_prop k (o_props o)); [by intros ->|].
  by case_match.
Qed.

Lemma obj_get_same_lookup o o' k :
  k <> "length" ->
  lookup_prop k o'.(o_props) = lookup_prop k o.(o_props) ->
  obj_get o' k = obj_get o k.
Proof.
  intros Hk H. unfold obj_get. rewrite H.
  destruct (lookup_prop k (o_props o)); [done|].
  destruct (String.eqb_spec k "length"); [done|]. by rewrite !andb_false_r.
Qed.

Lemma field_ref h v k r :
  field h v k = VRef r ->
  exists l o, v = VRef l /\ h !! l = Some o
              /\ lookup_prop k o.(o_props) = Some (VRef r).
Proof.
  destruct v; unfold field; try done.
  - unfold string_get. by repeat case_match.
  - destruct (h !! l) as [o|] eqn:E; [|done].
    intros H. exists l, o. split_and!; [done..|by apply obj_get_ref].
Qed.

Lemma index_string_not_length n : index_string n <> "length".
Proof.
  intros H. apply (f_equal NilZero.uint_of_string) in H.
  unfold index_string in H. by rewrite NilZero.usu in H by apply to_uint_not_nil.
Qed.

Lemma empty_array_no_refs k r :
  lookup_prop k empty_array.(o_props) <> Some (VRef r).
Proof. done. Qed.

Lemma sample_object_no_refs sn k r :
  lookup_prop k (sample_object sn).(o_props) <> Some (VRef r).
Proof.
  unfold sample_object. cbn [o_props lookup_prop].
  destruct (String.eqb "lang" k); [done|].
  by destruct (String.eqb "source" k).
Qed.

Section Frame.

Variable schema : value.

Lemma frame_refl h : frame schema h h.
Proof.
  split; [done| |].
  - intros l o Hl. exists o. split_and!; [done..|by exists []; rewrite app_nil_r| |done].
    intros k. by left.
  - intros l o Hl Hlen. apply lookup_lt_Some in Hl. lia.
Qed.

(** A reference to an old object is read through old objects only and
    was already there. *)
Lemma frame_field_back h0 h v k r :
  frame schema h0 h -> field h v k = VRef r -> r < List.length h0 ->
  exists l, v = VRef l /\ l < List.length h0 /\ field h0 v k = VRef r.
Proof.
  intros F Hf Hr. apply field_ref in Hf as (l & o & -> & Hl & Hk).
  destruct (decide (l < List.length h0)) as [Hlt|Hge].
  - exists l. split_and!; [done..|].
    destruct (lookup_lt_is_Some_2 h0 l Hlt) as [o0 Ho0].
    destruct (frame_old _ _ _ F l o0 Ho0) as (o' & Ho' & _ & _ & Hprops & _).
    assert (o' = o) as -> by congruence.
    unfold field. rewrite Ho0. apply obj_get_lookup.
    destruct (Hprops k) as [<-|(_ & (r' & Hr' & Hfresh) & _)]; [done|].
    rewrite Hk in Hr'. injection Hr' as ->. lia.
  - pose proof (frame_new _ _ _ F l o Hl ltac:(lia) k r Hk). lia.
Qed.

Lemma frame_operation_back h0 h path method l :
  frame schema h0 h -> operation_at h schema path method = VRef l ->
  l < List.length h0 -> operation_at h0 schema path method = VRef l.
Proof.
  intros F Hop Hl. unfold operation_at in *.
  destruct (frame_field_back _ _ _ _ _ F Hop Hl) as (i & Hi & Hilt & H3).
  destruct (frame_field_back _ _ _ _ _ F Hi Hilt) as (p & Hp & Hplt & H2).
  destruct (frame_field_back _ _ _ _ _ F Hp Hplt) as (s & Hs & Hslt & H1).
  rewrite H1. rewrite Hp in H2. rewrite H2. by rewrite Hi in H3.
Qed.

Lemma frame_samples_back h0 h path method a :
  frame schema h0 h ->
  field h (operation_at h schema path method) "x-code-samples" = VRef a ->
  a < List.length h0 ->
  field h0 (operation_at h0 schema path method) "x-code-samples" = VRef a.
Proof.
  intros F Hx Ha.
  destruct (frame_field_back _ _ _ _ _ F Hx Ha) as (l & Hl & Hllt & H).
  rewrite (frame_operation_back _ _ _ _ _ F Hl Hllt). by rewrite Hl in H.
Qed.

(** One write keeps the frame.  [k] is the key written, [x] the fresh
    object stored at the end of the heap. *)
Lemma frame_write h0 h l o k x :
  frame schema h0 h ->
  h !! l = Some o ->
  toBoolean (obj_get o k) = false ->
  k <> "length" ->
  (forall k' r, lookup_prop k' x.(o_props) <> Some (VRef r)) ->
  (l < List.length h0 ->
     (k = "x-code-samples" /\ is_operation h0 schema l) \/
     ((exists n, k = index_string n) /\ is_samples h0 schema l)) ->
  frame schema h0 (<[l := obj_set o k (VRef (List.length h))]> (h ++ [x])).
Proof.
  intros F Hl Hfalsy Hk Hx Hwho.
  pose proof (frame_length _ _ _ F) as Hlen.
  pose proof (lookup_lt_Some _ _ _ Hl) as Hllt.
  split.
  - rewrite length_insert, length_app. cbn. lia.
  - intros l0 o0 Hl0.
    destruct (frame_old _ _ _ F l0 o0 Hl0)
      as (o1 & Ho1 & Harr & (added & Hkeys) & Hprops & Hsame).
    destruct (decide (l0 = l)) as [->|Hne].
    + assert (o1 = o) as -> by congruence.
      exists (obj_set o k (VRef (List.length h))).
      assert (Hfalsy0 : toBoolean (obj_get o0 k) = false).
      { destruct (Hprops k) as [E|(E & _)]; [|done].
        by rewrite <- (obj_get_same_lookup o0 o k Hk E). }
      split_and!.
      * rewrite list_lookup_insert_eq; [done|]. rewrite length_app. cbn. lia.
      * done.
      * cbn. destruct (store_prop_keys k (VRef (List.length h)) (o_props o))
          as [->|[_ ->]].
        -- by exists added.
        -- exists (added ++ [k]). by rewrite Hkeys, app_assoc.
      * intros k'. cbn. destruct (decide (k = k')) as [<-|Hkk].
        -- right. rewrite lookup_prop_store_eq. split_and!; [done|eauto|].
           apply Hwho. by apply lookup_lt_Some in Hl0.
        -- rewrite lookup_prop_store_ne by done. apply Hprops.
      * intros Hnop Hnsa. destruct Hwho as [[_ ?]|[_ ?]]; [|done..].
        by apply lookup_lt_Some in Hl0.
    + exists o1. split_and!; [|done|by exists added|done|done].
      rewrite list_lookup_insert_ne by done.
      rewrite lookup_app_l; [done|]. by apply lookup_lt_Some in Ho1.
  - intros l0 o' Hl0 Hge k' r Hr.
    destruct (decide (l0 = l)) as [->|Hne].
    + rewrite list_lookup_insert_eq in Hl0 by (rewrite length_app; cbn; lia).
      injection Hl0 as <-. cbn in Hr.
      destruct (decide (k = k')) as [<-|Hkk].
      * rewrite lookup_prop_store_eq in Hr. injection Hr as <-. lia.
      * rewrite lookup_prop_store_ne in Hr by done.
        by eapply (frame_new _ _ _ F l o).
    + rewrite list_lookup_insert_ne in Hl0 by done.
      destruct (decide (l0 < List.length h)) as [Hlt|Hnlt].
      * rewrite lookup_app_l in Hl0 by done. by eapply (frame_new _ _ _ F l0 o').
      * rewrite lookup_app_r in Hl0 by lia.
        destruct (l0 - List.length h) as [|n] eqn:E; cbn in Hl0; [|done].
        injection Hl0 as <-. by apply Hx in Hr.
Qed.

Lemma frame_step h0 h h' :
  frame schema h0 h -> write_step schema h h' -> frame schema h0 h'.
Proof.
  intros F [path method l o Hop Hl Hfalsy|path method a o n sn Hxcs Ha Hfalsy].
  - apply frame_write; [done..| |].
    + apply empty_array_no_refs.
    + intros Hlt. left. split; [done|]. exists path, method.
      by eapply frame_operation_back.
  - apply frame_write; [done..|apply index_string_not_length| |].
    + apply sample_object_no_refs.
    + intros Hlt. right. split; [by exists n|]. exists path, method.
      by eapply frame_samples_back.
Qed.

Lemma frame_steps h0 h : rtc (write_step schema) h0 h -> frame schema h0 h.
Proof.
  revert h. apply (rtc_ind_r (fun h => frame schema h0 h)).
  - apply frame_refl.
  - intros h1 h2 _ Hstep IH. by eapply frame_step.
Qed.

End Frame.

(** ** Reads that succeed *)

Lemma field_readable h v k : field h v k <> VUndefined -> readable h v = true.
Proof.
  destruct v; cbn; try done.
  destruct (h !! l) eqn:E; [|done]. intros _. apply bool_decide_eq_true_2. eauto.
Qed.

Lemma readable_not_undefined h v : readable h v = true -> v <> VUndefined.
Proof. by destruct v. Qed.

Lemma Get_readable v k s :
  readable s.(st_heap) v = true -> Get v k s = Done (field s.(st_heap) v k) s.
Proof. intros H. by rewrite Get_eq, H. Qed.

Lemma operation_run schema path method s :
  readable s.(st_heap)
    (field s.(st_heap) (field s.(st_heap) schema "paths") path) = true ->
  operation schema path method s
  = Done (operation_at s.(st_heap) schema path method) s.
Proof.
  intros H3. unfold operation, bind, operation_at.
  pose proof (field_readable _ _ _ (readable_not_undefined _ _ H3)) as H2.
  pose proof (field_readable _ _ _ (readable_not_undefined _ _ H2)) as H1.
  rewrite (Get_readable _ _ _ H1), (Get_readable _ _ _ H2).
  by apply Get_readable.
Qed.

Lemma code_samples_run schema path method s :
  readable s.(st_heap) (operation_at s.(st_heap) schema path method) = true ->
  code_samples schema path method s
  = Done (samples_at s.(st_heap) schema path method) s.
Proof.
  intros H. unfold code_samples, bind.
  rewrite operation_run.
  - by apply Get_readable.
  - eapply field_readable, readable_not_undefined, H.
Qed.

Lemma readable_ref h l o : h !! l = Some o -> readable h (VRef l) = true.
Proof. intros H. apply bool_decide_eq_true_2. eauto. Qed.

Lemma toBoolean_not_undefined v : toBoolean v = true -> v <> VUndefined.
Proof. by destruct v. Qed.

Lemma toBoolean_readable h v : toBoolean v = true ->
  (forall l, v = VRef l -> is_Some (h !! l)) -> readable h v = true.
Proof.
  destruct v; cbn; try done. intros _ H. apply bool_decide_eq_true_2. eauto.
Qed.

(** ** Truthy properties stay *)

Section Kept.

Variable schema : value.

Lemma frame_field_truthy h0 h v k :
  frame schema h0 h -> k <> "length" ->
  toBoolean (field h0 v k) = true -> field h v k = field h0 v k.
Proof.
  intros F Hk Ht. destruct v; try done. unfold field in *.
  destruct (h0 !! l) as [o0|] eqn:E0; [|done].
  destruct (frame_old _ _ _ F l o0 E0) as (o' & -> & _ & _ & Hprops & _).
  apply obj_get_same_lookup; [done|].
  destruct (Hprops k) as [E|(E & _)]; [done|congruence].
Qed.

Lemma frame_field_ref h0 h v k r :
  frame schema h0 h -> field h0 v k = VRef r -> field h v k = VRef r.
Proof.
  intros F Hf. apply field_ref in Hf as (l & o0 & -> & E0 & Hk).
  unfold field.
  destruct (frame_old _ _ _ F l o0 E0) as (o' & -> & _ & _ & Hprops & _).
  apply obj_get_lookup.
  destruct (Hprops k) as [E|(E & _)]; [congruence|].
  by rewrite (obj_get_lookup _ _ _ Hk) in E.
Qed.

Lemma frame_operation_ref h0 h path method l :
  frame schema h0 h -> operation_at h0 schema path method = VRef l ->
  operation_at h schema path method = VRef l.
Proof.
  intros F Hop. unfold operation_at in *.
  destruct (field_ref _ _ _ _ Hop) as (i & oi & Hi & _ & _).
  destruct (field_ref _ _ _ _ Hi) as (p & op & Hp & _ & _).
  rewrite (frame_field_ref _ _ _ _ _ F Hp).
  rewrite Hp in Hi, Hop. rewrite (frame_field_ref _ _ _ _ _ F Hi).
  rewrite Hi in Hop. by apply (frame_field_ref _ _ _ _ _ F).
Qed.

Lemma samples_at_truthy_operation h path method :
  toBoolean (samples_at h schema path method) = true ->
  exists l, operation_at h schema path method = VRef l.
Proof.
  unfold samples_at. destruct (operation_at h schema path method); try done.
  eauto.
Qed.

Lemma frame_samples_truthy h0 h path method :
  frame schema h0 h ->
  toBoolean (samples_at h0 schema path method) = true ->
  samples_at h schema path method = samples_at h0 schema path method.
Proof.
  intros F Ht. destruct (samples_at_truthy_operation _ _ _ Ht) as [l Hl].
  unfold samples_at in *.
  rewrite (frame_operation_ref _ _ _ _ _ F Hl), Hl in *.
  by apply frame_field_truthy.
Qed.

Lemma entry_at_truthy_samples h path method i :
  toBoolean (entry_at h schema path method i) = true ->
  toBoolean (samples_at h schema path method) = true.
Proof.
  unfold entry_at. destruct (samples_at h schema path method) eqn:E; try done.
  cbn. unfold string_get. destruct s; [|done].
  by repeat case_match.
Qed.

Lemma frame_entry_truthy h0 h path method i :
  frame schema h0 h ->
  toBoolean (entry_at h0 schema path method i) = true ->
  entry_at h schema path method i = entry_at h0 schema path method i.
Proof.
  intros F Ht. unfold entry_at in *.
  rewrite (frame_samples_truthy _ _ _ _ F (entry_at_truthy_samples _ _ _ _ Ht)).
  apply frame_field_truthy; [done|apply index_string_not_length|done].
Qed.

End Kept.

(** ** The two writes, step by step *)

Section Steps.

Variable isVerbose : bool.
Variable schema : value.

Lemma messageIfVerbose_eq msg n mt s :
  messageIfVerbose isVerbose msg n mt s
  = Done tt (mkState s.(st_heap) (s.(st_log) ++ logged_if isVerbose (mkMessage n mt msg))).
Proof.
  unfold messageIfVerbose, logged_if. destruct isVerbose; cbn; [done|].
  rewrite app_nil_r. by destruct s.
Qed.

(** A falsy or missing field is replaced by a fresh empty array. *)
Lemma init_code_samples_writes path method s l o :
  operation_at s.(st_heap) schema path method = VRef l ->
  s.(st_heap) !! l = Some o ->
  toBoolean (obj_get o "x-code-samples") = false ->
  init_code_samples isVerbose schema path method s
  = Done tt
      (mkState
         (<[l := obj_set o "x-code-samples" (VRef (List.length s.(st_heap)))]>
            (s.(st_heap) ++ [empty_array]))
         (s.(st_log)
            ++ logged_if isVerbose (mkMessage 1 Complete "Added 'x-code-samples' field."))).
Proof.
  intros Hop Hl Hfalsy. unfold init_code_samples, bind.
  assert (Hr : readable (st_heap s) (operation_at (st_heap s) schema path method)
               = true) by (rewrite Hop; by eapply readable_ref).
  rewrite (code_samples_run _ _ _ _ Hr). unfold samples_at. rewrite Hop.
  unfold field at 1. rewrite Hl, Hfalsy. cbn [negb].
  rewrite messageIfVerbose_eq.
  rewrite operation_run; cbn [st_heap].
  - rewrite Hop. unfold assign_new. cbn [st_heap st_log]. by rewrite Hl.
  - eapply field_readable, readable_not_undefined, Hr.
Qed.

(** A truthy field is left alone. *)
Lemma init_code_samples_skips path method s :
  toBoolean (samples_at s.(st_heap) schema path method) = true ->
  init_code_samples isVerbose schema path method s
  = Done tt
      (mkState s.(st_heap)
         (s.(st_log)
            ++ logged_if isVerbose (mkMessage 1 Warning
                             "'x-code-samples' field already exists, skipping."))).
Proof.
  intros Ht. unfold init_code_samples, bind.
  rewrite code_samples_run.
  - rewrite Ht. cbn [negb]. apply messageIfVerbose_eq.
  - eapply field_readable, toBoolean_not_undefined, Ht.
Qed.

(** A falsy or missing entry is replaced by the generated sample. *)
Lemma add_snippet_writes path method i sn s a o :
  samples_at s.(st_heap) schema path method = VRef a ->
  s.(st_heap) !! a = Some o ->
  toBoolean (obj_get o (index_string i)) = false ->
  add_snippet isVerbose schema path method (i, sn) s
  = Done tt
      (mkState
         (<[a := obj_set o (index_string i) (VRef (List.length s.(st_heap)))]>
            (s.(st_heap) ++ [sample_object sn]))
         ((s.(st_log) ++ logged_if isVerbose (checking sn))
            ++ logged_if isVerbose (mkMessage 2 Complete
                             ("Added '" +:+ title sn +:+ "' field.")))).
Proof.
  intros Hxcs Ha Hfalsy. unfold add_snippet, bind. cbn [fst snd].
  assert (Hr : readable (st_heap s) (operation_at (st_heap s) schema path method)
               = true).
  { eapply field_readable. unfold samples_at in Hxcs. by rewrite Hxcs. }
  rewrite messageIfVerbose_eq.
  rewrite code_samples_run by done. cbn [st_heap]. rewrite Hxcs.
  rewrite Get_readable by (by eapply readable_ref). cbn [st_heap].
  unfold field at 1. rewrite Ha, Hfalsy. cbn [negb].
  rewrite messageIfVerbose_eq.
  rewrite code_samples_run by done. cbn [st_heap]. rewrite Hxcs.
  unfold assign_new. cbn [st_heap st_log]. by rewrite Ha.
Qed.

(** A truthy entry is left alone: only the notice is logged. *)
Lemma add_snippet_skips path method i sn s :
  toBoolean (entry_at s.(st_heap) schema path method i) = true ->
  add_snippet isVerbose schema path method (i, sn) s
  = Done tt
      (mkState s.(st_heap)
         ((s.(st_log) ++ logged_if isVerbose (checking sn))
            ++ [mkMessage 2 Warning
                  ("Field '" +:+ title sn +:+ "' already exists in '"
                   +:+ path +:+ "' path, skipping.")])).
Proof.
  intros Ht. unfold add_snippet, bind. cbn [fst snd].
  pose proof (entry_at_truthy_samples _ _ _ _ _ Ht) as Hs.
  rewrite messageIfVerbose_eq.
  rewrite code_samples_run; cbn [st_heap].
  - rewrite Get_readable; cbn [st_heap].
    + fold (entry_at (st_heap s) schema path method i). rewrite Ht. done.
    + eapply field_readable, toBoolean_not_undefined, Ht.
  - eapply field_readable, toBoolean_not_undefined, Hs.
Qed.

(** What the field and the entry read after a write. *)
Lemma samples_at_written path method h l o x :
  operation_at h schema path method = VRef l ->
  h !! l = Some o ->
  toBoolean (obj_get o "x-code-samples") = false ->
  (forall k r, lookup_prop k x.(o_props) <> Some (VRef r)) ->
  let h' := <[l := obj_set o "x-code-samples" (VRef (List.length h))]> (h ++ [x]) in
  samples_at h' schema path method = VRef (List.length h)
  /\ h' !! List.length h = Some x.
Proof.
  intros Hop Hl Hfalsy Hx h'.
  pose proof (lookup_lt_Some _ _ _ Hl) as Hlt.
  assert (F : frame schema h h').
  { apply frame_write; [apply frame_refl|done..| |].
    - intros k r; apply Hx.
    - intros _. left. split; [done|]. by exists path, method. }
  split.
  - unfold samples_at. rewrite (frame_operation_ref _ _ _ _ _ _ F Hop).
    unfold field, h'. rewrite list_lookup_insert_eq by (rewrite length_app; lia).
    apply obj_get_lookup. cbn. apply lookup_prop_store_eq.
  - unfold h'. rewrite list_lookup_insert_ne by lia.
    rewrite lookup_app_r by lia. by rewrite Nat.sub_diag.
Qed.

Lemma entry_at_written path method h a o i x :
  samples_at h schema path method = VRef a ->
  h !! a = Some o ->
  toBoolean (obj_get o (index_string i)) = false ->
  (forall k r, lookup_prop k x.(o_props) <> Some (VRef r)) ->
  let h' := <[a := obj_set o (index_string i) (VRef (List.length h))]> (h ++ [x]) in
  entry_at h' schema path method i = VRef (List.length h)
  /\ h' !! List.length h = Some x.
Proof.
  intros Hxcs Ha Hfalsy Hx h'.
  pose proof (lookup_lt_Some _ _ _ Ha) as Hlt.
  assert (F : frame schema h h').
  { apply frame_write; [apply frame_refl|done..|apply index_string_not_length| |].
    - intros k r; apply Hx.
    - intros _. right. split; [by exists i|]. by exists path, method. }
  split.
  - unfold entry_at.
    rewrite (frame_samples_truthy _ _ _ _ _ F) by (by rewrite Hxcs).
    rewrite Hxcs.
    unfold field, h'. rewrite list_lookup_insert_eq by (rewrite length_app; lia).
    apply obj_get_lookup. cbn. apply lookup_prop_store_eq.
  - unfold h'. rewrite list_lookup_insert_ne by lia.
    rewrite lookup_app_r by lia. by rewrite Nat.sub_diag.
Qed.

End Steps.

(** ** The claims about one run *)

Section Run.

Variable getEndpointSnippets :
  heap -> value -> string -> string -> list string -> option (list snippet).
Variable targets : list string.
Variable isVerbose : bool.

Lemma enrichSchema_frame schema s :
  frame schema s.(st_heap)
    (final_state (enrichSchema getEndpointSnippets targets isVerbose schema s)).(st_heap).
Proof. apply frame_steps, writes_samples_enrichSchema. Qed.

Lemma enrichSchema_returns schema s v s' :
  enrichSchema getEndpointSnippets targets isVerbose schema s = Done v s' ->
  v = schema.
Proof.
  unfold enrichSchema, bind.
  destruct (hasOwnProperty schema "paths" s) as [[] ?|]; cbn; [|done..].
  destruct (Get schema "paths" _) as [? ?|]; [|done].
  destruct (for_in_keys _ _) as [? ?|]; [|done].
  destruct (for_each _ _ _) as [? ?|]; [|done].
  by intros [= <- _].
Qed.

(** A document object without the key [paths], and without a key that
    hides [hasOwnProperty], is rejected before anything is touched. *)
Lemma missing_paths_rejected l o s :
  s.(st_heap) !! l = Some o ->
  obj_has_own o "paths" = false ->
  lookup_prop "hasOwnProperty" o.(o_props) = None ->
  enrichSchema getEndpointSnippets targets isVerbose (VRef l) s
  = Thrown (PropertyError "paths") s.
Proof.
  intros Hl Hp Hh. unfold enrichSchema, bind, hasOwnProperty.
  by rewrite Hl, Hh, Hp.
Qed.

(** C1 as amended.  An entry that holds a truthy value at index [i] of
    an operation's sequence reads the same after enrichment, whatever
    the generator returns; if it is an object that is not itself an
    operation or a sample sequence, that object is unchanged; and the
    loop body for index [i], in any heap the run passes through, writes
    nothing and logs the skip notice. *)
Theorem occupied_index_kept schema path method i s
    (Hocc : toBoolean (entry_at s.(st_heap) schema path method i) = true) :
  let h := s.(st_heap) in
  let h' := (final_state
               (enrichSchema getEndpointSnippets targets isVerbose schema s)).(st_heap) in
  entry_at h' schema path method i = entry_at h schema path method i /\
  (forall e o, entry_at h schema path method i = VRef e ->
               h !! e = Some o ->
               ~ is_operation h schema e -> ~ is_samples h schema e ->
               h' !! e = Some o) /\
  (forall st sn, frame schema h st.(st_heap) ->
     add_snippet isVerbose schema path method (i, sn) st
     = Done tt
         (mkState st.(st_heap)
            ((st.(st_log) ++ logged_if isVerbose (checking sn))
               ++ [mkMessage 2 Warning
                     ("Field '" +:+ title sn +:+ "' already exists in '"
                      +:+ path +:+ "' path, skipping.")]))).
Proof.
  intros h h'. pose proof (enrichSchema_frame schema s) as F. fold h h' in F.
  split_and!.
  - by apply (frame_entry_truthy schema).
  - intros e o _ Ee Hnop Hnsa.
    destruct (frame_old _ _ _ F e o Ee) as (o' & -> & _ & _ & _ & Hsame).
    f_equal. by apply Hsame.
  - intros st sn Fst. apply add_snippet_skips.
    by rewrite (frame_entry_truthy schema _ _ _ _ _ Fst).
Qed.

End Run.

(** ** The field and entry checks *)

Section Checks.

Variable getEndpointSnippets :
  heap -> value -> string -> string -> list string -> option (list snippet).
Variable targets : list string.
Variable isVerbose : bool.
Variable schema : value.


End Checks.

(** ** The worked example and the inputs where a claim fails *)

Module PetsFacts.
Import PetsExample.

(** C6.  The document with one operation and no samples, the target
    [shell_curl] and the generator returning one snippet give the
    document with that snippet as the only sample: its title is the
    sample's [lang], its content the sample's [source]. *)
Theorem pets_end_to_end verbose :
  exists schema s,
    run verbose = Done schema s /\
    reify 10 s.(st_heap) schema = Some expected.
Proof.
  destruct verbose; eexists _, _;
    (split; [vm_compute; reflexivity|]); vm_compute; reflexivity.
Qed.

(** C1 where it fails: the sequence has an entry at index 0, it holds
    [null], and enrichment overwrites it with the generated sample. *)
Lemma null_entry_is_overwritten :
  let d := with_samples (JArr [JNull]) in
  (exists a o,
     samples_at (parsed d).(st_heap) (root d) "/pets" "get" = VRef a /\
     (parsed d).(st_heap) !! a = Some o /\
     lookup_prop (index_string 0) o.(o_props) = Some VNull) /\
  entry_at (parsed d).(st_heap) (root d) "/pets" "get" 0 = VNull /\
  exists schema s,
    run_on d = Done schema s /\
    entry_at s.(st_heap) schema "/pets" "get" 0 <> VNull /\
    reify 10 s.(st_heap) schema
    = Some (with_samples
              (JArr [JObj [("lang", JStr "shell_curl"); ("source", JStr "curl ...")]])).
Proof.
  cbn zeta. split.
  { eexists _, _. split; [vm_compute; reflexivity|].
    split; [vm_compute; reflexivity|]. vm_compute; reflexivity. }
  split; [vm_compute; reflexivity|].
  eexists _, _. split; [vm_compute; reflexivity|].
  split; [vm_compute; discriminate|vm_compute; reflexivity].
Qed.


(** C2 where it fails: the documents [null] and
    [{"hasOwnProperty": true}] have no [paths] key, and enrichment ends
    in a [TypeError], not in the [PropertyError] for [paths]. *)
Theorem missing_paths_type_error :
  run_on JNull = Thrown TypeError (parsed JNull) /\
  let d := JObj [("hasOwnProperty", JBool true)] in
  field (parsed d).(st_heap) (root d) "paths" = VUndefined /\
  run_on d = Thrown TypeError (parsed d).
Proof. split; [|split]; vm_compute; reflexivity. Qed.

End PetsFacts.

(** ** What a finished step leaves behind *)

Section Finished.

Variable isVerbose : bool.
Variable schema : value.

(** The field check either found a truthy field and changed nothing, or
    performed the field write. *)
Lemma init_code_samples_Done path method s s' :
  init_code_samples isVerbose schema path method s = Done tt s' ->
  (toBoolean (samples_at s.(st_heap) schema path method) = true
   /\ s'.(st_heap) = s.(st_heap)) \/
  (exists l o,
     operation_at s.(st_heap) schema path method = VRef l /\
     s.(st_heap) !! l = Some o /\
     toBoolean (obj_get o "x-code-samples") = false /\
     s'.(st_heap)
     = <[l := obj_set o "x-code-samples" (VRef (List.length s.(st_heap)))]>
         (s.(st_heap) ++ [empty_array])).
Proof.
  unfold init_code_samples, bind.
  destruct (code_samples schema path method s) as [xcs s1|e s1] eqn:E1; [|done].
  apply code_samples_Done in E1 as [-> ->].
  fold (samples_at (st_heap s) schema path method).
  destruct (toBoolean _) eqn:Etruthy; cbn [negb].
  { rewrite messageIfVerbose_eq. intros [= <-]. by left. }
  rewrite messageIfVerbose_eq.
  set (s2 := mkState _ _).
  destruct (operation schema path method s2) as [op s3|e s3] eqn:E3; [|done].
  apply operation_Done in E3 as [-> ->]. cbn [s2 st_heap].
  intros E4. apply assign_new_Done in E4 as (l & o0 & Hop & Hl & Hheap & _).
  cbn [s2 st_heap] in *. right. exists l, o0. split_and!; [done..| |done].
  unfold samples_at in Etruthy. rewrite Hop in Etruthy.
  unfold field in Etruthy. by rewrite Hl in Etruthy.
Qed.

(** The loop body either found a truthy entry and changed nothing, or
    performed the sample write. *)
Lemma add_snippet_Done path method i sn s s' :
  add_snippet isVerbose schema path method (i, sn) s = Done tt s' ->
  (toBoolean (entry_at s.(st_heap) schema path method i) = true
   /\ s'.(st_heap) = s.(st_heap)) \/
  (exists a o,
     samples_at s.(st_heap) schema path method = VRef a /\
     s.(st_heap) !! a = Some o /\
     toBoolean (obj_get o (index_string i)) = false /\
     s'.(st_heap)
     = <[a := obj_set o (index_string i) (VRef (List.length s.(st_heap)))]>
         (s.(st_heap) ++ [sample_object sn])).
Proof.
  unfold add_snippet, bind. cbn [fst snd].
  rewrite messageIfVerbose_eq. set (s1 := mkState _ _).
  destruct (code_samples schema path method s1) as [xcs s2|e s2] eqn:E2; [|done].
  apply code_samples_Done in E2 as [-> ->]. cbn [s1 st_heap].
  destruct (Get _ (index_string i) s1) as [existing s3|e s3] eqn:E3; [|done].
  apply Get_Done in E3 as [-> ->]. cbn [s1 st_heap].
  fold (entry_at (st_heap s) schema path method i).
  destruct (toBoolean _) eqn:Etruthy; cbn [negb].
  { intros [= <-]. by left. }
  rewrite messageIfVerbose_eq. set (s4 := mkState _ _).
  destruct (code_samples schema path method s4) as [xcs' s5|e s5] eqn:E5; [|done].
  apply code_samples_Done in E5 as [-> ->]. cbn [s4 s1 st_heap].
  intros E6. apply assign_new_Done in E6 as (a & o0 & Hxcs & Ha & Hheap & _).
  cbn [s4 s1 st_heap] in *. right. exists a, o0. split_and!; [done..| |done].
  unfold entry_at in Etruthy. rewrite Hxcs in Etruthy.
  unfold field in Etruthy. by rewrite Ha in Etruthy.
Qed.

Lemma init_code_samples_truthy path method s s' :
  init_code_samples isVerbose schema path method s = Done tt s' ->
  toBoolean (samples_at s'.(st_heap) schema path method) = true.
Proof.
  intros H. apply init_code_samples_Done in H
    as [[Ht ->]|(l & o & Hop & Hl & Hfalsy & ->)]; [done|].
  by rewrite (proj1 (samples_at_written schema _ _ _ _ _ _ Hop Hl Hfalsy
                       empty_array_no_refs)).
Qed.

Lemma add_snippet_truthy path method i sn s s' :
  add_snippet isVerbose schema path method (i, sn) s = Done tt s' ->
  toBoolean (entry_at s'.(st_heap) schema path method i) = true.
Proof.
  intros H. apply add_snippet_Done in H
    as [[Ht ->]|(a & o & Hxcs & Ha & Hfalsy & ->)]; [done|].
  by rewrite (proj1 (entry_at_written schema _ _ _ _ _ _ _ Hxcs Ha Hfalsy
                       (sample_object_no_refs sn))).
Qed.

(** After the loop over the snippets every index it ran over is
    occupied. *)
Lemma for_each_add_snippet_truthy path method entries s s' :
  for_each entries (add_snippet isVerbose schema path method) s = Done tt s' ->
  forall i sn, (i, sn) ∈ entries ->
    toBoolean (entry_at s'.(st_heap) schema path method i) = true.
Proof.
  revert s. induction entries as [|[i0 sn0] entries IH]; intros s Hrun i sn Hin.
  - by apply elem_of_nil in Hin.
  - cbn in Hrun. unfold bind in Hrun.
    destruct (add_snippet _ _ _ _ _ s) as [[] s1|] eqn:E1; [|done].
    apply elem_of_cons in Hin as [[= -> ->]|Hin]; [|by eapply IH].
    apply add_snippet_truthy in E1.
    assert (F : frame schema s1.(st_heap) s'.(st_heap)).
    { apply frame_steps.
      pose proof (writes_samples_for_each schema entries
                    (add_snippet isVerbose schema path method)
                    (writes_samples_add_snippet isVerbose schema path method) s1)
        as Hw.
      by rewrite Hrun in Hw. }
    by rewrite (frame_entry_truthy schema _ _ _ _ _ F E1).
Qed.

(** Over occupied indices the loop changes nothing. *)
Lemma for_each_add_snippet_skips path method entries s :
  (forall i sn, (i, sn) ∈ entries ->
     toBoolean (entry_at s.(st_heap) schema path method i) = true) ->
  exists s',
    for_each entries (add_snippet isVerbose schema path method) s = Done tt s'
    /\ s'.(st_heap) = s.(st_heap).
Proof.
  revert s. induction entries as [|[i0 sn0] entries IH]; intros s Hocc.
  - by exists s.
  - cbn. unfold bind. rewrite add_snippet_skips by (eapply Hocc; by left).
    set (s1 := mkState _ _).
    destruct (IH s1) as (s' & -> & Hs').
    { intros i sn Hin. apply (Hocc i sn). by right. }
    by exists s'.
Qed.

End Finished.

(** ** A second run *)

Lemma for_in_keys_eq v s :
  for_in_keys v s = match keys_at s.(st_heap) v with
                    | Some ks => Done ks s
                    | None => Thrown TypeError s
                    end.
Proof.
  destruct v; try done. unfold for_in_keys, keys_at.
  by destruct (st_heap s !! l).
Qed.

Lemma not_index_string k n :
  NilZero.uint_of_string k = None -> k <> index_string n.
Proof.
  intros Hk ->. unfold index_string in Hk.
  by rewrite NilZero.usu in Hk by apply to_uint_not_nil.
Qed.

Lemma frame_readable schema h h' v :
  frame schema h h' -> readable h v = true -> readable h' v = true.
Proof.
  intros F. destruct v; try done. cbn. rewrite !bool_decide_eq_true.
  intros [o Ho]. destruct (frame_old _ _ _ F l o Ho) as (o' & -> & _). eauto.
Qed.

Lemma frame_lookup_other schema h h' l o o' k :
  frame schema h h' -> h !! l = Some o -> h' !! l = Some o' ->
  k <> "x-code-samples" -> (forall n, k <> index_string n) ->
  lookup_prop k o'.(o_props) = lookup_prop k o.(o_props).
Proof.
  intros F Hl Hl' Hx Hi.
  destruct (frame_old _ _ _ F l o Hl) as (o1 & Ho1 & _ & _ & Hprops & _).
  assert (o1 = o') as -> by congruence.
  destruct (Hprops k) as [E|(_ & _ & [[? _]|[[n ?] _]])]; [done|done|].
  by destruct (Hi n).
Qed.

Lemma frame_unchanged schema h h' l o :
  frame schema h h' -> h !! l = Some o ->
  ~ is_operation h schema l -> ~ is_samples h schema l ->
  h' !! l = Some o.
Proof.
  intros F Hl Hop Hsa.
  destruct (frame_old _ _ _ F l o Hl) as (o' & -> & _ & _ & _ & Hsame).
  f_equal. by apply Hsame.
Qed.

Lemma root_paths_kept schema h0 h :
  readable h0 schema = true -> frame schema h0 h ->
  field h schema "paths" = field h0 schema "paths".
Proof.
  intros Hroot F. destruct schema as [| | | | |l] eqn:Es; try done.
  unfold field. cbn in Hroot. apply bool_decide_eq_true in Hroot as [o Ho].
  rewrite Ho. destruct (frame_old _ _ _ F l o Ho) as (o' & Ho' & _).
  rewrite Ho'. apply obj_get_same_lookup; [done|].
  eapply frame_lookup_other; [exact F|done..|].
  intros n. by apply not_index_string.
Qed.

Section Again.

Variable getEndpointSnippets :
  heap -> value -> string -> string -> list string -> option (list snippet).
Variable targets : list string.
Variable isVerbose : bool.
Variable schema : value.
Variable h0 : heap.

Hypothesis Hgen : ignores_samples getEndpointSnippets schema targets h0.
Hypothesis Hshape : paths_unshared h0 schema.
Hypothesis Hroot : readable h0 schema = true.

Local Abbreviation later h := (rtc (write_step schema) h0 h).
Local Abbreviation P0 := (field h0 schema "paths").

Lemma later_paths h : later h -> field h schema "paths" = P0.
Proof. intros L. apply root_paths_kept; [done|by apply frame_steps]. Qed.

Lemma later_object h v l :
  later h -> v = VRef l ->
  (field h0 schema "paths" = VRef l \/
   exists path, field h0 (field h0 schema "paths") path = VRef l) ->
  h !! l = h0 !! l.
Proof.
  intros L -> Hl. apply frame_steps in L as F.
  destruct (Hshape l Hl) as ([o Ho] & Hop & Hsa).
  rewrite Ho. by eapply frame_unchanged.
Qed.

Lemma later_keys_paths h : later h -> keys_at h P0 = keys_at h0 P0.
Proof.
  intros L. destruct P0 as [| | | | |p] eqn:Ep; try done.
  unfold keys_at. rewrite (later_object h (VRef p) p L eq_refl); [done|by left].
Qed.

Lemma later_item h path : later h -> field h P0 path = field h0 P0 path.
Proof.
  intros L. destruct P0 as [| | | | |p] eqn:Ep; try done.
  unfold field. rewrite (later_object h (VRef p) p L eq_refl); [done|by left].
Qed.

Lemma later_keys_item h path :
  later h -> keys_at h (field h0 P0 path) = keys_at h0 (field h0 P0 path).
Proof.
  intros L. destruct (field h0 P0 path) as [| | | | |i] eqn:Ei; try done.
  unfold keys_at. rewrite (later_object h (VRef i) i L eq_refl); [done|].
  right. by exists path.
Qed.

(** An operation that has been enriched is not changed by enriching it
    again, in the heap the first pass left or any later one. *)
Lemma enrich_operation_settled path method s s' :
  later s.(st_heap) ->
  enrich_operation getEndpointSnippets targets isVerbose schema path method s
  = Done tt s' ->
  settled schema
    (enrich_operation getEndpointSnippets targets isVerbose schema path method)
    s'.(st_heap).
Proof.
  intros L Hrun st Hst.
  pose proof (writes_samples_enrich_operation getEndpointSnippets targets
                isVerbose schema path method s) as Hw.
  rewrite Hrun in Hw. cbn in Hw.
  unfold enrich_operation, bind, call_generator in Hrun |- *.
  rewrite (Hgen (st_heap st)) by (etrans; [exact L|by etrans]).
  rewrite <- (Hgen (st_heap s) path method L).
  destruct (getEndpointSnippets (st_heap s) schema path method targets)
    as [snippets|]; [|done].
  rewrite messageIfVerbose_eq in Hrun. rewrite messageIfVerbose_eq.
  set (s1 := mkState _ _) in Hrun.
  destruct (init_code_samples isVerbose schema path method s1)
    as [[] s2|] eqn:Einit; [|done].
  pose proof (init_code_samples_truthy _ _ _ _ _ _ Einit) as Htruthy.
  pose proof (writes_samples_for_each schema (indexed snippets)
                (add_snippet isVerbose schema path method)
                (writes_samples_add_snippet isVerbose schema path method) s2)
    as Hw2.
  rewrite Hrun in Hw2. cbn in Hw2.
  assert (F : frame schema (st_heap s2) (st_heap st))
    by (apply frame_steps; by etrans).
  rewrite init_code_samples_skips
    by (cbn [st_heap]; by rewrite (frame_samples_truthy schema _ _ _ _ F Htruthy)).
  set (st1 := mkState _ _).
  destruct (for_each_add_snippet_skips isVerbose schema path method
              (indexed snippets) st1) as (st' & Hst' & Heq).
  - intros i sn Hin. cbn [st1 st_heap].
    pose proof (for_each_add_snippet_truthy _ _ _ _ _ _ _ Hrun i sn Hin) as Hocc.
    assert (F' : frame schema (st_heap s') (st_heap st)) by by apply frame_steps.
    by rewrite (frame_entry_truthy schema _ _ _ _ _ F' Hocc).
  - exists st'. by rewrite Hst'.
Qed.

(** A loop whose finished bodies are settled is settled itself. *)
Lemma for_each_settled {A} (xs : list A) (body : A -> M unit) s s' :
  (forall x, writes_samples schema (body x)) ->
  (forall x s1 s2, body x s1 = Done tt s2 ->
                   rtc (write_step schema) s.(st_heap) s1.(st_heap) ->
                   settled schema (body x) s2.(st_heap)) ->
  for_each xs body s = Done tt s' ->
  settled schema (for_each xs body) s'.(st_heap).
Proof.
  intros Hw Hbody. revert s Hbody.
  induction xs as [|x xs IH]; intros s Hbody Hrun st Hst.
  - by exists st.
  - cbn in Hrun |- *. unfold bind in Hrun |- *.
    destruct (body x s) as [[] s1|] eqn:E1; [|done].
    pose proof (Hw x s) as Hw1. rewrite E1 in Hw1. cbn in Hw1.
    pose proof (writes_samples_for_each schema xs body Hw s1) as Hw2.
    rewrite Hrun in Hw2. cbn in Hw2.
    destruct (Hbody x s s1 E1 ltac:(done) st) as (st1 & -> & Heq1);
      [by etrans|].
    destruct (IH s1) with (st := st1) as (st2 & -> & Heq2).
    + intros y sa sb Hy Hsa. apply (Hbody y sa sb Hy). by etrans.
    + done.
    + by rewrite Heq1.
    + exists st2. split; [done|congruence].
Qed.

Lemma enrich_path_settled path s s' :
  later s.(st_heap) ->
  enrich_path getEndpointSnippets targets isVerbose schema path s = Done tt s' ->
  settled schema
    (enrich_path getEndpointSnippets targets isVerbose schema path) s'.(st_heap).
Proof.
  intros L Hrun st Hst.
  pose proof (writes_samples_enrich_path getEndpointSnippets targets
                isVerbose schema path s) as Hw.
  rewrite Hrun in Hw. cbn in Hw.
  assert (Lst : later (st_heap st)) by (etrans; [exact L|by etrans]).
  unfold enrich_path, bind in Hrun |- *.
  rewrite Get_eq in Hrun. rewrite Get_eq.
  rewrite (frame_readable schema h0 _ _ (frame_steps _ _ _ L) Hroot) in Hrun.
  rewrite (frame_readable schema h0 _ _ (frame_steps _ _ _ Lst) Hroot).
  rewrite (later_paths _ L) in Hrun. rewrite (later_paths _ Lst).
  rewrite Get_eq in Hrun. rewrite Get_eq.
  destruct (readable (st_heap s) P0) eqn:Hr; [|done].
  rewrite (frame_readable schema (st_heap s) (st_heap st) P0)
    by (done || apply frame_steps; by etrans).
  rewrite (later_item _ path L) in Hrun. rewrite (later_item _ path Lst).
  rewrite for_in_keys_eq in Hrun. rewrite for_in_keys_eq.
  rewrite (later_keys_item _ path L) in Hrun. rewrite (later_keys_item _ path Lst).
  destruct (keys_at h0 (field h0 P0 path)) as [methods|]; [|done].
  eapply (for_each_settled methods _ s s'); [| |exact Hrun|exact Hst].
  - intros m. apply writes_samples_enrich_operation.
  - intros m s1 s2 Hm Hs1.
    apply (enrich_operation_settled path m s1 s2); [|exact Hm].
    etrans; [exact L|exact Hs1].
Qed.

End Again.

Lemma hasOwnProperty_Done v k s b s' :
  hasOwnProperty v k s = Done b s' -> s' = s /\ readable s.(st_heap) v = true.
Proof.
  unfold hasOwnProperty. destruct v; try done; try by intros [= _ <-].
  destruct (st_heap s !! l) as [o|] eqn:E; [|done].
  destruct (lookup_prop _ _); [done|]. intros [= _ <-].
  split; [done|]. cbn. rewrite E. by apply bool_decide_eq_true_2.
Qed.

Lemma hasOwnProperty_frame schema v k s st b s' :
  frame schema s.(st_heap) st.(st_heap) ->
  k <> "x-code-samples" -> (forall n, k <> index_string n) ->
  hasOwnProperty v k s = Done b s' ->
  hasOwnProperty v k st = Done b st.
Proof.
  intros F Hx Hi. unfold hasOwnProperty.
  destruct v; try done; try by intros [= <- _].
  destruct (st_heap s !! l) as [o|] eqn:E; [|done].
  destruct (frame_old _ _ _ F l o E) as (o' & Ho' & Harr & _).
  rewrite Ho'.
  rewrite (frame_lookup_other schema _ _ l o o' "hasOwnProperty" F E Ho')
    by (done || intros n; by apply not_index_string).
  destruct (lookup_prop "hasOwnProperty" _); [done|].
  intros [= <- _]. unfold obj_has_own.
  by rewrite (frame_lookup_other schema _ _ l o o' k F E Ho'), Harr.
Qed.

(** C3 as amended.  If the generator answers, in every heap that sample
    writes lead to from the heap the first run starts in, as it does in
    that heap (it may read the document, but what it returns does not
    depend on the fields created and the samples written), and the paths
    mapping and the path items are not shared with operations or sample
    sequences, then after a run that returned, a second run on the heap
    it left returns the document again and leaves the heap as it is: no
    field is created and no sample is written. *)
Theorem second_run_changes_nothing
    (getEndpointSnippets :
       heap -> value -> string -> string -> list string -> option (list snippet))
    (targets : list string) (isVerbose : bool) (schema : value) (s : state)
    (v : value) (s1 : state) :
  ignores_samples getEndpointSnippets schema targets s.(st_heap) ->
  paths_unshared s.(st_heap) schema ->
  enrichSchema getEndpointSnippets targets isVerbose schema s = Done v s1 ->
  exists s2,
    enrichSchema getEndpointSnippets targets isVerbose schema s1 = Done schema s2
    /\ s2.(st_heap) = s1.(st_heap).
Proof.
  intros Hgen Hshape Hrun.
  pose proof (writes_samples_enrichSchema getEndpointSnippets targets isVerbose
                schema s) as L.
  rewrite Hrun in L. cbn in L.
  pose proof (frame_steps _ _ _ L) as F.
  unfold enrichSchema, bind in Hrun |- *.
  destruct (hasOwnProperty schema "paths" s) as [has s_|] eqn:Ehas; [|done].
  destruct (hasOwnProperty_Done _ _ _ _ _ Ehas) as [-> Hroot].
  assert (Hpx : "paths" <> "x-code-samples") by done.
  assert (Hpi : forall n, "paths" <> index_string n)
    by (intros n; by apply not_index_string).
  rewrite (hasOwnProperty_frame schema schema "paths" s s1 has s F Hpx Hpi Ehas).
  destruct has; cbn [negb] in *; [|done].
  rewrite Get_eq, Hroot in Hrun.
  rewrite Get_eq, (frame_readable _ _ _ _ F Hroot).
  rewrite (root_paths_kept schema (st_heap s) _ Hroot F).
  rewrite for_in_keys_eq in Hrun. rewrite for_in_keys_eq.
  rewrite (later_keys_paths schema (st_heap s) Hshape _ L).
  destruct (keys_at (st_heap s) (field (st_heap s) schema "paths")) as [keys|];
    [|done].
  destruct (for_each keys _ s) as [[] s1'|] eqn:Eloop; [|done].
  injection Hrun as _ ->.
  destruct (for_each_settled schema keys
              (enrich_path getEndpointSnippets targets isVerbose schema) s s1)
    with (st := s1) as (s2 & -> & Heq); [| |done|done|].
  - intros path. apply writes_samples_enrich_path.
  - intros path sa sb Hp Hsa.
    by eapply (enrich_path_settled getEndpointSnippets targets isVerbose schema
                 (st_heap s) Hgen).
  - by exists s2.
Qed.

(** ** The heap of a parsed text *)

Section JsonInduction.

Variable P : json -> Prop.
Hypothesis HNull : P JNull.
Hypothesis HBool : forall b, P (JBool b).
Hypothesis HNum : forall n, P (JNum n).
Hypothesis HStr : forall s, P (JStr s).
Hypothesis HArr : forall items, Forall P items -> P (JArr items).
Hypothesis HObj : forall members, Forall (fun m => P m.2) members -> P (JObj members).

Fixpoint json_induction (j : json) : P j :=
  match j with
  | JNull => HNull
  | JBool b => HBool b
  | JNum n => HNum n
  | JStr s => HStr s
  | JArr items =>
      HArr items
        ((fix go (l : list json) : Forall P l :=
            match l with
            | [] => @List.Forall_nil _ P
            | x :: r => @List.Forall_cons _ P x r (json_induction x) (go r)
            end) items)
  | JObj members =>
      HObj members
        ((fix go (l : list (string * json)) : Forall (fun m => P m.2) l :=
            match l with
            | [] => @List.Forall_nil _ (fun m => P m.2)
            | x :: r => @List.Forall_cons _ (fun m => P m.2) x r (json_induction x.2) (go r)
            end) members)
  end.

End JsonInduction.

Lemma tree_shaped_nil : tree_shaped [].
Proof. split; intros ? ? ? * [o [H _]]; done. Qed.

Lemma refers_lt h l k r : refers h l k r -> l < List.length h.
Proof. intros (o & Hl & _). by eapply lookup_lt_Some. Qed.

Lemma refers_app_old h new l k r :
  l < List.length h -> refers (h ++ new) l k r -> refers h l k r.
Proof. intros Hl (o & Ho & Hk). exists o. by rewrite lookup_app_l in Ho. Qed.

Lemma refers_app h new l k r : refers h l k r -> refers (h ++ new) l k r.
Proof.
  intros (o & Ho & Hk). exists o. split; [|done].
  rewrite lookup_app_l; [done|]. by eapply lookup_lt_Some.
Qed.

Lemma loaded_refl s : tree_shaped s.(st_heap) -> loaded s s.
Proof.
  intros T. split_and!; [done|by exists []; rewrite app_nil_r|done|].
  intros l k r Hr Hl. pose proof (refers_lt _ _ _ _ Hr). lia.
Qed.

Lemma loaded_length s s' : loaded s s' -> List.length s.(st_heap) <= List.length s'.(st_heap).
Proof. intros (_ & [new ->] & _). rewrite length_app. lia. Qed.

Lemma loaded_trans s1 s2 s3 : loaded s1 s2 -> loaded s2 s3 -> loaded s1 s3.
Proof.
  intros H12 H23. pose proof (loaded_length _ _ H12) as Hlen.
  destruct H12 as (Hlog1 & [new1 E1] & T2 & Hnew1).
  destruct H23 as (Hlog2 & [new2 E2] & T3 & Hnew2).
  split_and!; [congruence| |done|].
  - exists (new1 ++ new2). by rewrite E2, E1, app_assoc.
  - intros l k r Hr Hl.
    destruct (decide (l < List.length (st_heap s2))) as [Hlt|Hge].
    + apply (Hnew1 l k r); [|done]. rewrite E2 in Hr. by eapply refers_app_old.
    + pose proof (Hnew2 l k r Hr ltac:(lia)). lia.
Qed.

Lemma loaded_unreferenced s s' r :
  loaded s s' -> r < List.length s.(st_heap) ->
  unreferenced s.(st_heap) r -> unreferenced s'.(st_heap) r.
Proof.
  intros (_ & [new E] & _ & Hnew) Hr Hun l k Href.
  destruct (decide (l < List.length (st_heap s))) as [Hlt|Hge].
  - apply (Hun l k). rewrite E in Href. by eapply refers_app_old.
  - pose proof (Hnew l k r Href ltac:(lia)). lia.
Qed.

Lemma fresh_root_unreferenced s s' v r :
  tree_shaped s'.(st_heap) -> fresh_root s s' v -> v = VRef r ->
  unreferenced s'.(st_heap) r.
Proof.
  intros T Hroot Hv l k Href. destruct (Hroot r Hv) as [_ Hlast].
  pose proof (tree_down _ T l k r Href). pose proof (refers_lt _ _ _ _ Href). lia.
Qed.

(** A new object whose references are to distinct unreferenced objects
    keeps the heap tree shaped. *)
Lemma tree_shaped_alloc h o :
  tree_shaped h ->
  (forall k r, lookup_prop k o.(o_props) = Some (VRef r) ->
               r < List.length h /\ unreferenced h r) ->
  (forall k1 k2 r, lookup_prop k1 o.(o_props) = Some (VRef r) ->
                   lookup_prop k2 o.(o_props) = Some (VRef r) -> k1 = k2) ->
  tree_shaped (h ++ [o]).
Proof.
  intros T Hrefs Hinj.
  assert (Hcase : forall l k r, refers (h ++ [o]) l k r ->
            refers h l k r \/
            (l = List.length h /\ lookup_prop k o.(o_props) = Some (VRef r))).
  { intros l k r (o' & Ho' & Hk).
    destruct (decide (l < List.length h)) as [Hlt|Hge].
    - left. exists o'. by rewrite lookup_app_l in Ho'.
    - right. rewrite lookup_app_r in Ho' by lia.
      destruct (l - List.length h) as [|n] eqn:E; cbn in Ho'; [|done].
      injection Ho' as <-. split; [|done].
      apply lookup_lt_Some in Ho' || idtac. lia. }
  split.
  - intros l k r Href. destruct (Hcase l k r Href) as [Hold|[-> Hk]].
    + by eapply tree_down.
    + by destruct (Hrefs k r Hk).
  - intros l1 k1 l2 k2 r H1 H2.
    destruct (Hcase _ _ _ H1) as [Ho1|[-> Hk1]],
             (Hcase _ _ _ H2) as [Ho2|[-> Hk2]].
    + by eapply tree_unique.
    + destruct (Hrefs k2 r Hk2) as [_ Hun]. by destruct (Hun l1 k1).
    + destruct (Hrefs k1 r Hk1) as [_ Hun]. by destruct (Hun l2 k2).
    + split; [done|by eapply Hinj].
Qed.

Lemma refs_of_elem vs i r : vs !! i = Some (VRef r) -> r ∈ refs_of vs.
Proof.
  intros H. apply list_elem_of_omap. exists (VRef r).
  split; [by eapply list_elem_of_lookup_2|done].
Qed.

Lemma refs_of_lookup_inj vs i1 i2 r :
  NoDup (refs_of vs) ->
  vs !! i1 = Some (VRef r) -> vs !! i2 = Some (VRef r) -> i1 = i2.
Proof.
  revert i1 i2. induction vs as [|v vs IH]; intros i1 i2 Hnd H1 H2; [done|].
  assert (Hrest : NoDup (refs_of vs)).
  { unfold refs_of in *. cbn in Hnd. destruct v; try done.
    by apply NoDup_cons in Hnd as [_ ?]. }
  assert (Hhead : v = VRef r -> r ∉ refs_of vs).
  { intros ->. unfold refs_of in *. cbn in Hnd. by apply NoDup_cons in Hnd as [? _]. }
  destruct i1 as [|i1], i2 as [|i2]; cbn in H1, H2.
  - done.
  - injection H1 as ->. destruct (Hhead eq_refl). by eapply refs_of_elem.
  - injection H2 as ->. destruct (Hhead eq_refl). by eapply refs_of_elem.
  - f_equal. by eapply IH.
Qed.

Lemma lookup_prop_indexed (vs : list value) (n : nat) k x :
  lookup_prop k (imap (fun i v => (index_string (N.of_nat (n + i)), v)) vs) = Some x ->
  exists i, k = index_string (N.of_nat (n + i)) /\ vs !! i = Some x.
Proof.
  revert n. induction vs as [|v vs IH]; intros n; cbn; [done|].
  destruct (String.eqb_spec (index_string (N.of_nat (n + 0))) k) as [<-|Hne].
  - intros [= <-]. by exists 0.
  - intros H. destruct (IH (S n)) as (i & -> & Hi).
    + erewrite imap_ext; [exact H|]. intros i y _. cbn. by rewrite Nat.add_succ_r.
    + exists (S i). split; [|done]. by rewrite Nat.add_succ_r.
Qed.

Lemma lookup_prop_array_of vs k x :
  lookup_prop k (array_of vs).(o_props) = Some x ->
  exists i, k = index_string (N.of_nat i) /\ vs !! i = Some x.
Proof. apply (lookup_prop_indexed vs 0). Qed.

Lemma lookup_prop_fold_set (kvs : list (string * value)) o k x :
  lookup_prop k (fold_left (fun o kv => obj_set o kv.1 kv.2) kvs o).(o_props) = Some x ->
  lookup_prop k o.(o_props) = Some x \/ exists i, kvs !! i = Some (k, x).
Proof.
  revert o. induction kvs as [|[k0 v0] kvs IH]; intros o; cbn; [by left|].
  intros H. destruct (IH _ H) as [Hset|[i Hi]]; [|right; by exists (S i)].
  cbn in Hset. destruct (decide (k0 = k)) as [->|Hne].
  - rewrite lookup_prop_store_eq in Hset. injection Hset as <-. right. by exists 0.
  - rewrite lookup_prop_store_ne in Hset by done. by left.
Qed.

Lemma lookup_prop_object_of kvs k x :
  lookup_prop k (object_of kvs).(o_props) = Some x ->
  exists i, kvs !! i = Some (k, x).
Proof. intros H. by destruct (lookup_prop_fold_set _ _ _ _ H). Qed.

(** The parent object of loaded children. *)
Lemma alloc_loaded s s1 o :
  loaded s s1 ->
  (forall k r, lookup_prop k o.(o_props) = Some (VRef r) ->
     (List.length s.(st_heap) <= r < List.length s1.(st_heap))
     /\ unreferenced s1.(st_heap) r) ->
  (forall k1 k2 r, lookup_prop k1 o.(o_props) = Some (VRef r) ->
                   lookup_prop k2 o.(o_props) = Some (VRef r) -> k1 = k2) ->
  exists s2,
    alloc o s1 = Done (VRef (List.length s1.(st_heap))) s2 /\
    loaded s s2 /\ fresh_root s s2 (VRef (List.length s1.(st_heap))).
Proof.
  intros Hl Hrefs Hinj. pose proof (loaded_length _ _ Hl) as Hlen.
  destruct Hl as (Hlog & [new E] & T1 & Hnew).
  eexists. split; [reflexivity|]. cbn [st_heap st_log]. split.
  - split_and!; cbn [st_heap st_log]; [done| | |].
    + exists (new ++ [o]). by rewrite E, app_assoc.
    + apply tree_shaped_alloc; [done| |done].
      intros k r Hk. destruct (Hrefs k r Hk) as [[_ ?] ?]. done.
    + intros l k r (o' & Ho' & Hk) Hge.
      destruct (decide (l < List.length (st_heap s1))) as [Hlt|Hnlt].
      * apply (Hnew l k r); [|done]. exists o'. by rewrite lookup_app_l in Ho'.
      * rewrite lookup_app_r in Ho' by lia.
        destruct (l - List.length (st_heap s1)) as [|n]; cbn in Ho'; [|done].
        injection Ho' as <-. by destruct (Hrefs k r Hk) as [[? _] _].
  - intros r [= <-]. cbn [st_heap]. rewrite length_app. cbn. lia.
Qed.

Lemma map_M_loaded {A B} (f : A -> M B) (val : B -> value) (xs : list A) :
  Forall (fun x => forall s, tree_shaped s.(st_heap) ->
            exists y s', f x s = Done y s' /\ loaded s s' /\ fresh_root s s' (val y)) xs ->
  forall s, tree_shaped s.(st_heap) ->
    exists ys s',
      map_M f xs s = Done ys s' /\ loaded s s' /\
      (forall r, r ∈ refs_of (val <$> ys) ->
         (List.length s.(st_heap) <= r < List.length s'.(st_heap))
         /\ unreferenced s'.(st_heap) r) /\
      NoDup (refs_of (val <$> ys)).
Proof.
  induction 1 as [|x xs Hx _ IH]; intros s T.
  - exists [], s. split_and!; [done|by apply loaded_refl| |by constructor].
    intros r Hr. by apply elem_of_nil in Hr.
  - destruct (Hx s T) as (y & s1 & Ey & L1 & Hroot).
    assert (T1 : tree_shaped (st_heap s1)) by by destruct L1 as (_ & _ & ? & _).
    destruct (IH s1 T1) as (ys & s' & Eys & L2 & Hrefs & Hnd).
    pose proof (loaded_length _ _ L1) as Hlen1.
    pose proof (loaded_length _ _ L2) as Hlen2.
    exists (y :: ys), s'. split_and!.
    + cbn. unfold bind. by rewrite Ey, Eys.
    + by eapply loaded_trans.
    + intros r Hr. cbn in Hr. unfold refs_of in Hr. cbn in Hr.
      destruct (val y) as [| | | | |r0] eqn:Ev;
        try (destruct (Hrefs r Hr) as [[? ?] ?]; split; [lia|done]).
      apply elem_of_cons in Hr as [->|Hr];
        [|destruct (Hrefs r Hr) as [[? ?] ?]; split; [lia|done]].
      destruct (Hroot r0 eq_refl) as [? ?]. split; [lia|].
      eapply loaded_unreferenced; [exact L2|lia|].
      by eapply fresh_root_unreferenced.
    + cbn. unfold refs_of. cbn.
      destruct (val y) as [| | | | |r0] eqn:Ev; try done.
      apply NoDup_cons. split; [|done]. intros Hin.
      destruct (Hrefs r0 Hin) as [[? ?] _]. destruct (Hroot r0 eq_refl). lia.
Qed.

(** Loading a text never throws; it only adds objects, and the heap
    stays tree shaped. *)
Lemma load_loaded j :
  forall s, tree_shaped s.(st_heap) ->
    exists v s', load j s = Done v s' /\ loaded s s' /\ fresh_root s s' v.
Proof.
  induction j as [|b|n|str|items IH|members IH] using json_induction; intros s T;
    try (eexists _, s; split; [reflexivity|]; split;
         [by apply loaded_refl|by intros r]).
  - destruct (map_M_loaded load id items IH s T) as (vs & s1 & E & L & Hrefs & Hnd).
    rewrite list_fmap_id in Hrefs, Hnd.
    destruct (alloc_loaded s s1 (array_of vs) L) as (s2 & E2 & L2 & R2).
    + intros k r Hk. apply lookup_prop_array_of in Hk as (i & _ & Hi).
      apply Hrefs. by eapply refs_of_elem.
    + intros k1 k2 r H1 H2.
      apply lookup_prop_array_of in H1 as (i1 & -> & Hi1).
      apply lookup_prop_array_of in H2 as (i2 & -> & Hi2).
      by rewrite (refs_of_lookup_inj vs i1 i2 r Hnd Hi1 Hi2).
    + eexists _, s2. cbn. unfold bind. rewrite E. by rewrite E2.
  - set (f := fun m : string * json => v <- load m.2 ;; ret (m.1, v)).
    assert (Hf : Forall (fun m => forall s, tree_shaped s.(st_heap) ->
                   exists y s', f m s = Done y s' /\ loaded s s'
                                /\ fresh_root s s' y.2) members).
    { eapply Forall_impl; [exact IH|]. intros m Hm s0 T0.
      destruct (Hm s0 T0) as (v & s' & E & L & R).
      exists (m.1, v), s'. split; [|done]. unfold f, bind. by rewrite E. }
    destruct (map_M_loaded f snd members Hf s T) as (kvs & s1 & E & L & Hrefs & Hnd).
    destruct (alloc_loaded s s1 (object_of kvs) L) as (s2 & E2 & L2 & R2).
    + intros k r Hk. apply lookup_prop_object_of in Hk as [i Hi].
      apply Hrefs. apply (refs_of_elem _ i). by rewrite list_lookup_fmap, Hi.
    + intros k1 k2 r H1 H2.
      apply lookup_prop_object_of in H1 as [i1 Hi1].
      apply lookup_prop_object_of in H2 as [i2 Hi2].
      assert (i1 = i2) as ->.
      { apply (refs_of_lookup_inj (snd <$> kvs) i1 i2 r Hnd);
          rewrite list_lookup_fmap; [by rewrite Hi1|by rewrite Hi2]. }
      congruence.
    + eexists _, s2. cbn. fold f. unfold bind. rewrite E. by rewrite E2.
Qed.

Lemma field_refers h v k r :
  field h v k = VRef r -> exists l, v = VRef l /\ refers h l k r.
Proof.
  intros H. apply field_ref in H as (l & o & -> & Hl & Hk).
  exists l. split; [done|]. by exists o.
Qed.

(** In a tree shaped heap the paths mapping and the path items are
    objects of their own. *)
Lemma tree_paths_unshared h schema : tree_shaped h -> paths_unshared h schema.
Proof.
  intros T l Hl.
  assert (Hsome : forall a k, refers h a k l -> is_Some (h !! l)).
  { intros a k Hr. apply lookup_lt_is_Some.
    pose proof (tree_down _ T _ _ _ Hr). pose proof (refers_lt _ _ _ _ Hr). lia. }
  destruct Hl as [Hp|[path Hi]].
  - destruct (field_refers _ _ _ _ Hp) as (s & -> & Hs).
    split_and!; [by eapply Hsome| |].
    + intros (path & method & Hop). unfold operation_at in Hop. rewrite Hp in Hop.
      destruct (field_refers _ _ _ _ Hop) as (i & Hi & Hm).
      destruct (field_refers _ _ _ _ Hi) as (l' & [= <-] & Hpath).
      pose proof (tree_down _ T _ _ _ Hm). pose proof (tree_down _ T _ _ _ Hpath).
      lia.
    + intros (path & method & Hx). unfold operation_at in Hx. rewrite Hp in Hx.
      destruct (field_refers _ _ _ _ Hx) as (o & Ho & Hxcs).
      destruct (field_refers _ _ _ _ Ho) as (i & Hi & Hm).
      destruct (field_refers _ _ _ _ Hi) as (l' & [= <-] & Hpath).
      pose proof (tree_down _ T _ _ _ Hxcs). pose proof (tree_down _ T _ _ _ Hm).
      pose proof (tree_down _ T _ _ _ Hpath). lia.
  - destruct (field_refers _ _ _ _ Hi) as (p & Hp & Hpl).
    split_and!; [by eapply Hsome| |].
    + intros (path' & method & Hop). unfold operation_at in Hop. rewrite Hp in Hop.
      destruct (field_refers _ _ _ _ Hop) as (i' & Hi' & Hm).
      destruct (field_refers _ _ _ _ Hi') as (p' & [= <-] & Hpath').
      destruct (tree_unique _ T _ _ _ _ _ Hpl Hm) as [-> _].
      pose proof (tree_down _ T _ _ _ Hpath'). lia.
    + intros (path' & method & Hx). unfold operation_at in Hx. rewrite Hp in Hx.
      destruct (field_refers _ _ _ _ Hx) as (o & Ho & Hxcs).
      destruct (field_refers _ _ _ _ Ho) as (i' & Hi' & Hm).
      destruct (field_refers _ _ _ _ Hi') as (p' & [= <-] & Hpath').
      destruct (tree_unique _ T _ _ _ _ _ Hpl Hxcs) as [-> _].
      pose proof (tree_down _ T _ _ _ Hm). pose proof (tree_down _ T _ _ _ Hpath').
      lia.
Qed.

Lemma load_parsed d : load d initial_state = Done (root d) (parsed d).
Proof.
  unfold root, parsed.
  destruct (load_loaded d initial_state tree_shaped_nil) as (v & s' & -> & _).
  done.
Qed.

Lemma parsed_tree_shaped d : tree_shaped (parsed d).(st_heap).
Proof.
  destruct (load_loaded d initial_state tree_shaped_nil) as (v & s' & E & L & _).
  unfold parsed. rewrite E. by destruct L as (_ & _ & ? & _).
Qed.

Lemma parsed_unshared d : paths_unshared (parsed d).(st_heap) (root d).
Proof. apply tree_paths_unshared, parsed_tree_shaped. Qed.

(** ** What sample writes leave readable in a parsed document *)

Section Reads.

Variable schema : value.
Variable h0 : heap.

Hypothesis T : tree_shaped h0.
Hypothesis Hroot : readable h0 schema = true.

Local Abbreviation later h := (rtc (write_step schema) h0 h).

Lemma tree_refers_some l k r : refers h0 l k r -> is_Some (h0 !! r).
Proof.
  intros Hr. apply lookup_lt_is_Some.
  pose proof (tree_down _ T _ _ _ Hr). pose proof (refers_lt _ _ _ _ Hr). lia.
Qed.

(** Sample writes do not change which value a path and a method lead
    to. *)
Lemma later_operation h path method :
  later h -> operation_at h schema path method = operation_at h0 schema path method.
Proof.
  intros L. pose proof (tree_paths_unshared h0 schema T) as Hshape.
  unfold operation_at.
  rewrite (root_paths_kept schema h0 h Hroot (frame_steps _ _ _ L)).
  rewrite (later_item schema h0 Hshape h path L).
  destruct (field h0 (field h0 schema "paths") path) as [| | | | |i] eqn:Ei; try done.
  unfold field.
  rewrite (later_object schema h0 Hshape h (VRef i) i L eq_refl); [done|].
  right. by exists path.
Qed.

(** A member of an operation other than its samples reads as before. *)
Lemma later_operation_member h path method k :
  later h ->
  k <> "x-code-samples" -> (forall n, k <> index_string n) -> k <> "length" ->
  field h (operation_at h schema path method) k
  = field h0 (operation_at h0 schema path method) k.
Proof.
  intros L Hx Hi Hlen. rewrite (later_operation h path method L).
  destruct (operation_at h0 schema path method) as [| | | | |l] eqn:Eop; try done.
  unfold operation_at in Eop.
  destruct (field_refers _ _ _ _ Eop) as (i & _ & Hm).
  destruct (tree_refers_some _ _ _ Hm) as [o Ho].
  pose proof (frame_steps _ _ _ L) as F.
  destruct (frame_old _ _ _ F l o Ho) as (o' & Ho' & _).
  unfold field. rewrite Ho, Ho'.
  apply obj_get_same_lookup; [done|]. by eapply frame_lookup_other.
Qed.

(** So does what such a member holds: the parameters of an operation,
    its responses, its request body. *)
Lemma later_operation_nested h path method k1 k2 :
  later h ->
  k1 <> "x-code-samples" -> (forall n, k1 <> index_string n) -> k1 <> "length" ->
  k2 <> "x-code-samples" -> k2 <> "length" ->
  field h (field h (operation_at h schema path method) k1) k2
  = field h0 (field h0 (operation_at h0 schema path method) k1) k2.
Proof.
  intros L Hx1 Hi1 Hlen1 Hx2 Hlen2.
  rewrite (later_operation_member h path method k1 L Hx1 Hi1 Hlen1).
  destruct (field h0 (operation_at h0 schema path method) k1) as [| | | | |a] eqn:Ea;
    try done.
  destruct (field_refers _ _ _ _ Ea) as (l & _ & Hk1).
  destruct (tree_refers_some _ _ _ Hk1) as [o Ho].
  pose proof (frame_steps _ _ _ L) as F.
  destruct (frame_old _ _ _ F a o Ho) as (o' & Ho' & _ & _ & Hprops & _).
  unfold field. rewrite Ho, Ho'. apply obj_get_same_lookup; [done|].
  destruct (Hprops k2) as [E|(_ & _ & [[? _]|[_ (path' & method' & Hsa)]])];
    [done|done|].
  destruct (field_refers _ _ _ _ Hsa) as (l' & _ & Hxcs).
  by destruct (tree_unique _ T _ _ _ _ _ Hk1 Hxcs) as [_ ->].
Qed.

End Reads.

(** A generator that reads the parameters of the operation returns the
    same snippets however many samples have been written into a parsed
    document. *)
Lemma reads_parameters_ignores_samples d ts :
  readable (parsed d).(st_heap) (root d) = true ->
  ignores_samples PetsExample.reads_parameters (root d) ts (parsed d).(st_heap).
Proof.
  intros Hroot h path method L. unfold PetsExample.reads_parameters.
  rewrite (later_operation_nested (root d) (parsed d).(st_heap)
             (parsed_tree_shaped d) Hroot h path method "parameters" "0" L);
    try done.
  intros n. by apply not_index_string.
Qed.

(** ** Falsy fields and entries through the loop body *)





Section Overwrites.

Variable getEndpointSnippets :
  heap -> value -> string -> string -> list string -> option (list snippet).
Variable targets : list string.
Variable isVerbose : bool.
Variable schema : value.




End Overwrites.

(** ** The frame of a run on a document without shared objects *)

(** What leads to an operation, and to a sample sequence. *)
Lemma operation_chain h schema l :
  is_operation h schema l ->
  exists rt p i path method,
    schema = VRef rt /\ refers h rt "paths" p /\ refers h p path i /\
    refers h i method l.
Proof.
  intros (path & method & Hop). unfold operation_at in Hop.
  destruct (field_refers _ _ _ _ Hop) as (i & Hi & Hm).
  destruct (field_refers _ _ _ _ Hi) as (p & Hp & Hpath).
  destruct (field_refers _ _ _ _ Hp) as (rt & Hrt & Hpaths).
  by exists rt, p, i, path, method.
Qed.

Lemma samples_chain h schema a :
  is_samples h schema a ->
  exists l, is_operation h schema l /\ refers h l "x-code-samples" a.
Proof.
  intros (path & method & Hx).
  destruct (field_refers _ _ _ _ Hx) as (l & Hl & Hxcs).
  exists l. split; [by exists path, method|done].
Qed.

Lemma refers_fun h l k r r' : refers h l k r -> refers h l k r' -> r = r'.
Proof. intros (o & Ho & Hk) (o' & Ho' & Hk'). congruence. Qed.

(** A tree shaped heap has no shared objects. *)
Lemma tree_unshared h schema : tree_shaped h -> unshared h schema.
Proof.
  intros T. split_and!.
  - by apply tree_paths_unshared.
  - intros rt ->. split.
    + intros Hop.
      destruct (operation_chain _ _ _ Hop) as (rt' & p & i & path & method
                                               & [= <-] & H1 & H2 & H3).
      pose proof (tree_down _ T _ _ _ H1). pose proof (tree_down _ T _ _ _ H2).
      pose proof (tree_down _ T _ _ _ H3). lia.
    + intros Hsa. destruct (samples_chain _ _ _ Hsa) as (l & Hop & Hx).
      destruct (operation_chain _ _ _ Hop) as (rt' & p & i & path & method
                                               & [= <-] & H1 & H2 & H3).
      pose proof (tree_down _ T _ _ _ H1). pose proof (tree_down _ T _ _ _ H2).
      pose proof (tree_down _ T _ _ _ H3). pose proof (tree_down _ T _ _ _ Hx).
      lia.
  - intros l Hop Hsa.
    destruct (samples_chain _ _ _ Hsa) as (l' & Hop' & Hx).
    destruct (operation_chain _ _ _ Hop) as (rt & p & i & path & method
                                             & -> & H1 & H2 & H3).
    destruct (operation_chain _ _ _ Hop') as (rt' & p' & i' & path' & method'
                                              & [= <-] & H1' & H2' & H3').
    destruct (tree_unique _ T _ _ _ _ _ H3 Hx) as [-> _].
    destruct (tree_unique _ T _ _ _ _ _ H2 H3') as [-> _].
    pose proof (refers_fun _ _ _ _ _ H1 H1') as <-.
    pose proof (tree_down _ T _ _ _ H2'). lia.
Qed.

Lemma parsed_document_unshared d : unshared (parsed d).(st_heap) (root d).
Proof. apply tree_unshared, parsed_tree_shaped. Qed.

Section UnsharedFrame.

Variable getEndpointSnippets :
  heap -> value -> string -> string -> list string -> option (list snippet).
Variable targets : list string.
Variable isVerbose : bool.

(** C9 as amended.  For a document without shared objects and a
    generator that only reads the heap (the model gives it no way to
    write), a run of enrichment, whether it returns or throws:
    - returns the reference it was given, if it returns;
    - leaves the root, the paths mapping and every path item exactly as
      they were;
    - leaves every operation object with its old keys in place and
      every key other than ["x-code-samples"] with its old value;
    - leaves every sample sequence with its keys other than indices,
      and every truthy entry, as they were;
    - leaves every other object exactly as it was;
    and all that changes is described by [frame]: a changed property
    was falsy and now refers to a new object. *)
Theorem unshared_enrichment_frame schema s
    (Hshape : unshared s.(st_heap) schema) :
  let h := s.(st_heap) in
  let r := enrichSchema getEndpointSnippets targets isVerbose schema s in
  let h' := (final_state r).(st_heap) in
  match r with Done v _ => v = schema | Thrown _ _ => True end /\
  frame schema h h' /\
  (forall l o,
     h !! l = Some o ->
     (schema = VRef l \/ field h schema "paths" = VRef l \/
      exists path, field h (field h schema "paths") path = VRef l) ->
     h' !! l = Some o) /\
  (forall l o,
     h !! l = Some o -> is_operation h schema l ->
     exists o',
       h' !! l = Some o' /\
       o_array o' = o_array o /\
       (exists added, o'.(o_props).*1 = o.(o_props).*1 ++ added) /\
       forall k, k <> "x-code-samples" ->
                 lookup_prop k o'.(o_props) = lookup_prop k o.(o_props)) /\
  (forall a o,
     h !! a = Some o -> is_samples h schema a ->
     exists o',
       h' !! a = Some o' /\
       o_array o' = o_array o /\
       (exists added, o'.(o_props).*1 = o.(o_props).*1 ++ added) /\
       (forall k, (forall n, k <> index_string n) ->
                  lookup_prop k o'.(o_props) = lookup_prop k o.(o_props)) /\
       (forall k v, lookup_prop k o.(o_props) = Some v -> toBoolean v = true ->
                    lookup_prop k o'.(o_props) = Some v)) /\
  (forall l o,
     h !! l = Some o -> ~ is_operation h schema l -> ~ is_samples h schema l ->
     h' !! l = Some o).
Proof.
  intros h r h'. destruct Hshape as (Hpaths & Hrt & Hops). fold h in Hpaths, Hrt, Hops.
  pose proof (enrichSchema_frame getEndpointSnippets targets isVerbose schema s) as F.
  fold r h h' in F. split_and!.
  - destruct r eqn:E; [|done]. by eapply enrichSchema_returns.
  - exact F.
  - intros l o Hl [Hroot|Hwhich].
    + destruct (Hrt l Hroot) as [Hop Hsa]. by eapply frame_unchanged.
    + destruct (Hpaths l Hwhich) as (_ & Hop & Hsa). by eapply frame_unchanged.
  - intros l o Hl Hop.
    destruct (frame_old _ _ _ F l o Hl) as (o' & Ho' & Harr & Hkeys & Hprops & _).
    exists o'. split_and!; [done..|].
    intros k Hk. destruct (Hprops k) as [E|(_ & _ & [[? _]|[_ Hsa]])]; [done|done|].
    by destruct (Hops l Hop).
  - intros a o Ha Hsa.
    destruct (frame_old _ _ _ F a o Ha) as (o' & Ho' & Harr & Hkeys & Hprops & _).
    exists o'. split_and!; [done..| |].
    + intros k Hk. destruct (Hprops k) as [E|(_ & _ & [[_ Hop]|[[n ->] _]])]; [done| |].
      * by destruct (Hops a Hop).
      * by destruct (Hk n).
    + intros k v Hk Hv. destruct (Hprops k) as [->|(Hf & _)]; [done|].
      by rewrite (obj_get_lookup _ _ _ Hk), Hv in Hf.
  - intros l o Hl Hop Hsa. by eapply frame_unchanged.
Qed.

End UnsharedFrame.

Module PetsShared.
Import PetsExample.

Lemma unshared_enrichment_frame_witness :
  let h := (parsed document).(st_heap) in
  let h' := (final_state (enrichSchema generator ["shell_curl"] false
                            (root document) (parsed document))).(st_heap) in
  unshared h (root document) /\
  h' !! 1 = Some (mkObject false 0 [("get", VRef 0)]) /\
  h' !! 2 = Some (mkObject false 0 [("/pets", VRef 1)]) /\
  h' !! 3 = Some (mkObject false 0 [("paths", VRef 2)]).
Proof.
  intros h h'. pose proof (parsed_document_unshared document) as Hshape.
  split; [exact Hshape|].
  destruct (unshared_enrichment_frame generator ["shell_curl"] false
              (root document) (parsed document) Hshape)
    as (_ & _ & Hkept & _).
  split_and!.
  - apply Hkept; [vm_compute; reflexivity|].
    right. right. exists "/pets". vm_compute; reflexivity.
  - apply Hkept; [vm_compute; reflexivity|]. right. left. vm_compute; reflexivity.
  - apply Hkept; [vm_compute; reflexivity|]. left. vm_compute; reflexivity.
Defined.

(** C9 where it fails: in a document whose path item [/b] is the object
    that is also the operation [get] of [/a], enrichment gives the path
    item the key ["x-code-samples"], which it did not have; the general
    frame still holds, as the object is an operation. *)
Lemma shared_path_item_gains_key :
  let h := aliased.(st_heap) in
  let schema := VRef 3 in
  field h (field h schema "paths") "/b" = VRef 0 /\
  operation_at h schema "/a" "get" = VRef 0 /\
  keys_at h (field h (field h schema "paths") "/b") = Some [] /\
  exists s1,
    enrichSchema generator ["shell_curl"] false schema aliased = Done schema s1 /\
    field s1.(st_heap) (field s1.(st_heap) schema "paths") "/b" = VRef 0 /\
    keys_at s1.(st_heap) (field s1.(st_heap) (field s1.(st_heap) schema "paths") "/b")
    = Some ["x-code-samples"] /\
    ~ unshared h schema.
Proof.
  cbn zeta. split; [vm_compute; reflexivity|]. split; [vm_compute; reflexivity|].
  split; [vm_compute; reflexivity|].
  eexists. split; [vm_compute; reflexivity|].
  split; [vm_compute; reflexivity|]. split; [vm_compute; reflexivity|].
  intros (Hpaths & _).
  destruct (Hpaths 0) as (_ & Hop & _).
  - right. exists "/b". vm_compute; reflexivity.
  - apply Hop. exists "/a", "get". vm_compute; reflexivity.
Qed.

End PetsShared.

(** ** Instances on the worked example *)

Module PetsRuns.
Import PetsExample.

Lemma occupied_index_kept_witness :
  let d := with_samples (JArr [manual_sample]) in
  toBoolean (entry_at (parsed d).(st_heap) (root d) "/pets" "get" 0) = true /\
  entry_at
    (final_state
       (enrichSchema generator ["shell_curl"] false (root d) (parsed d))).(st_heap)
    (root d) "/pets" "get" 0
  = entry_at (parsed d).(st_heap) (root d) "/pets" "get" 0.
Proof.
  intros d.
  assert (Hocc : toBoolean (entry_at (parsed d).(st_heap) (root d) "/pets" "get" 0)
                 = true) by (vm_compute; reflexivity).
  split; [exact Hocc|].
  exact (proj1 (occupied_index_kept generator ["shell_curl"] false (root d)
                  "/pets" "get" 0%N (parsed d) Hocc)).
Defined.



Lemma second_run_changes_nothing_witness :
  ignores_samples reads_parameters (root with_parameters) ["shell_curl"]
    (parsed with_parameters).(st_heap) /\
  paths_unshared (parsed with_parameters).(st_heap) (root with_parameters) /\
  exists s1 s2,
    enrichSchema reads_parameters ["shell_curl"] false (root with_parameters)
      (parsed with_parameters)
    = Done (root with_parameters) s1 /\
    entry_at s1.(st_heap) (root with_parameters) "/pets" "get" 0 = VRef 6 /\
    s1.(st_heap) !! 6
    = Some (sample_object (mkSnippet "shell_curl" "curl /pets?limit")) /\
    enrichSchema reads_parameters ["shell_curl"] false (root with_parameters) s1
    = Done (root with_parameters) s2 /\
    s2.(st_heap) = s1.(st_heap).
Proof.
  assert (Hgen : ignores_samples reads_parameters (root with_parameters)
                   ["shell_curl"] (parsed with_parameters).(st_heap)).
  { apply reads_parameters_ignores_samples. vm_compute; reflexivity. }
  pose proof (parsed_unshared with_parameters) as Hshape.
  split; [exact Hgen|]. split; [exact Hshape|].
  eexists.
  assert (Hrun : enrichSchema reads_parameters ["shell_curl"] false
                   (root with_parameters) (parsed with_parameters)
                 = Done (root with_parameters)
                     (final_state
                        (enrichSchema reads_parameters ["shell_curl"] false
                           (root with_parameters) (parsed with_parameters))))
    by (vm_compute; reflexivity).
  destruct (second_run_changes_nothing reads_parameters ["shell_curl"] false
              (root with_parameters) (parsed with_parameters) _ _ Hgen Hshape Hrun)
    as (s2 & E2 & Heq).
  exists s2. split; [exact Hrun|].
  split; [vm_compute; reflexivity|]. split; [vm_compute; reflexivity|].
  split; [exact E2|exact Heq].
Defined.

(** C3 where it fails: with a generator that is a function of the
    document, the first run writes one sample and the second run, on
    the document the first one left, writes another. *)
Lemma growing_generator_second_run :
  exists s1 s2,
    enrichSchema growing_generator ["shell_curl"] false (root document)
      (parsed document) = Done (root document) s1 /\
    enrichSchema growing_generator ["shell_curl"] false (root document) s1
    = Done (root document) s2 /\
    reify 10 s1.(st_heap) (root document)
    = Some (with_samples
              (JArr [JObj [("lang", JStr "shell_curl"); ("source", JStr "curl ...")]])) /\
    reify 10 s2.(st_heap) (root document)
    = Some (with_samples
              (JArr [JObj [("lang", JStr "shell_curl"); ("source", JStr "curl ...")];
                     JObj [("lang", JStr "shell_wget"); ("source", JStr "wget ...")]])) /\
    s2.(st_heap) <> s1.(st_heap).
Proof.
  eexists _, _. split; [vm_compute; reflexivity|].
  split; [vm_compute; reflexivity|].
  split; [vm_compute; reflexivity|].
  split; [vm_compute; reflexivity|].
  vm_compute. discriminate.
Qed.

End PetsRuns.

(** * Further properties of the engine *)

(** ** Members of a path item that are not objects *)

Section NotAnObject.

Variable getEndpointSnippets :
  heap -> value -> string -> string -> list string -> option (list snippet).
Variable targets : list string.
Variable isVerbose : bool.
Variable schema : value.

(** A string has no property ["x-code-samples"]. *)
Lemma string_get_code_samples str : string_get str "x-code-samples" = VUndefined.
Proof. done. Qed.

(** When [schema.paths[path][method]] is not an object (a string such as
    a path item's [summary], a number, a boolean, [null]) and the generator
    returns for it, the loop body throws a [TypeError]: reading through
    [null] throws, and strict mode refuses to create ["x-code-samples"] on
    a primitive.  The heap is as it was. *)
Theorem member_not_an_object_throws path method s snippets
    (Hitem : readable s.(st_heap)
               (field s.(st_heap) (field s.(st_heap) schema "paths") path) = true)
    (Hgen : getEndpointSnippets s.(st_heap) schema path method targets
            = Some snippets)
    (Hop : match operation_at s.(st_heap) schema path method with
           | VRef _ => False
           | _ => True
           end) :
  exists s',
    enrich_operation getEndpointSnippets targets isVerbose schema path method s
    = Thrown TypeError s'
    /\ s'.(st_heap) = s.(st_heap).
Proof.
  unfold enrich_operation, bind, call_generator. rewrite Hgen.
  rewrite messageIfVerbose_eq. set (s1 := mkState _ _).
  unfold init_code_samples, code_samples, bind.
  rewrite operation_run by done. cbn [s1 st_heap].
  rewrite Get_eq. cbn [s1 st_heap].
  destruct (operation_at (st_heap s) schema path method) as [| |b|n|str|l] eqn:Eop;
    try done; cbn [readable field toBoolean negb];
    try (eexists; split; [reflexivity|done]).
  - rewrite messageIfVerbose_eq, operation_run by done. cbn [s1 st_heap].
    rewrite Eop. eexists; split; [reflexivity|done].
  - rewrite messageIfVerbose_eq, operation_run by done. cbn [s1 st_heap].
    rewrite Eop. eexists; split; [reflexivity|done].
  - rewrite string_get_code_samples. cbn [toBoolean negb].
    rewrite messageIfVerbose_eq, operation_run by done. cbn [s1 st_heap].
    rewrite Eop. eexists; split; [reflexivity|done].
Qed.

End NotAnObject.

(** ** A paths value without keys *)

(** When the document is an object with an own key [paths] and no own
    key [hasOwnProperty], and a [for ... in] loop over the value of
    [paths] finds no key ([keys_at] gives the empty list: the value is
    [null], a number, a boolean, the empty string, or an object or array
    without keys; a string that is not empty has its indices as keys and
    is not such a value), enrichment returns the document at once: the
    generator is not consulted, nothing is written, nothing is logged. *)
Theorem paths_without_keys_unchanged
    (getEndpointSnippets :
       heap -> value -> string -> string -> list string -> option (list snippet))
    (targets : list string) (isVerbose : bool) l o P s
    (Hl : s.(st_heap) !! l = Some o)
    (Hown : lookup_prop "hasOwnProperty" o.(o_props) = None)
    (Hpaths : lookup_prop "paths" o.(o_props) = Some P)
    (Hkeys : keys_at s.(st_heap) P = Some []) :
  enrichSchema getEndpointSnippets targets isVerbose (VRef l) s = Done (VRef l) s.
Proof.
  unfold enrichSchema, bind, hasOwnProperty. rewrite Hl, Hown.
  unfold obj_has_own. rewrite Hpaths. cbn [negb].
  rewrite Get_eq, (readable_ref _ _ _ Hl). unfold field. rewrite Hl.
  rewrite (obj_get_lookup _ _ _ Hpaths), for_in_keys_eq, Hkeys. done.
Qed.

(** ** What a run logs when it is not verbose *)

Lemma logs_only_same {A} Q (m : M A) :
  (forall s, (final_state (m s)).(st_log) = s.(st_log)) -> logs_only Q m.
Proof. intros H s. exists []. by rewrite H, app_nil_r. Qed.

Lemma logs_only_bind {A B} Q (m : M A) (f : A -> M B) :
  logs_only Q m -> (forall a, logs_only Q (f a)) -> logs_only Q (bind m f).
Proof.
  intros Hm Hf s. unfold bind. destruct (Hm s) as (ws & Hws & HQ).
  destruct (m s) as [a s1|e s1]; cbn in *; [|by exists ws].
  destruct (Hf a s1) as (ws' & Hws' & HQ').
  exists (ws ++ ws'). split; [by rewrite Hws', Hws, app_assoc|by apply Forall_app].
Qed.

Lemma logs_only_for_each {A} Q (xs : list A) (body : A -> M unit) :
  (forall x, logs_only Q (body x)) -> logs_only Q (for_each xs body).
Proof.
  intros Hb. induction xs as [|x xs IH]; cbn.
  - by apply logs_only_same.
  - apply logs_only_bind; [apply Hb|by intros _].
Qed.

Lemma logs_only_Get Q v k : logs_only Q (Get v k).
Proof. apply logs_only_same. intros s. rewrite Get_eq. by case_match. Qed.

Lemma logs_only_for_in_keys Q v : logs_only Q (for_in_keys v).
Proof. apply logs_only_same. intros s. rewrite for_in_keys_eq. by case_match. Qed.

Lemma logs_only_hasOwnProperty Q v k : logs_only Q (hasOwnProperty v k).
Proof.
  apply logs_only_same. intros s. unfold hasOwnProperty. by repeat case_match.
Qed.

Lemma logs_only_assign_new Q v k o : logs_only Q (assign_new v k o).
Proof.
  apply logs_only_same. intros s. unfold assign_new. by repeat case_match.
Qed.

Lemma logs_only_quiet_message Q msg n mt : logs_only Q (messageIfVerbose false msg n mt).
Proof. by apply logs_only_same. Qed.

Lemma logs_only_operation Q schema path method :
  logs_only Q (operation schema path method).
Proof.
  unfold operation.
  repeat (apply logs_only_bind; [apply logs_only_Get|intros ?]).
  apply logs_only_Get.
Qed.

Lemma logs_only_code_samples Q schema path method :
  logs_only Q (code_samples schema path method).
Proof.
  unfold code_samples. apply logs_only_bind; [apply logs_only_operation|intros ?].
  apply logs_only_Get.
Qed.

(** Without the verbosity flag, the only lines enrichment logs are skip
    notices, warnings at nesting depth 2: creating a field or writing a
    sample logs nothing, whether the run returns or throws. *)
Theorem quiet_run_logs_skip_notices
    (getEndpointSnippets :
       heap -> value -> string -> string -> list string -> option (list snippet))
    (targets : list string) (schema : value) :
  logs_only skip_notice (enrichSchema getEndpointSnippets targets false schema).
Proof.
  assert (Hadd : forall path method entry,
            logs_only skip_notice (add_snippet false schema path method entry)).
  { intros path method entry. unfold add_snippet.
    apply logs_only_bind; [apply logs_only_quiet_message|intros _].
    apply logs_only_bind; [apply logs_only_code_samples|intros xcs].
    apply logs_only_bind; [apply logs_only_Get|intros existing].
    destruct (negb (toBoolean existing)).
    - apply logs_only_bind; [apply logs_only_quiet_message|intros _].
      apply logs_only_bind; [apply logs_only_code_samples|intros xcs'].
      apply logs_only_assign_new.
    - intros s. eexists [_]. split; [reflexivity|]. by repeat constructor. }
  assert (Hinit : forall path method,
            logs_only skip_notice (init_code_samples false schema path method)).
  { intros path method. unfold init_code_samples.
    apply logs_only_bind; [apply logs_only_code_samples|intros xcs].
    destruct (negb (toBoolean xcs)); [|apply logs_only_quiet_message].
    apply logs_only_bind; [apply logs_only_quiet_message|intros _].
    apply logs_only_bind; [apply logs_only_operation|intros op].
    apply logs_only_assign_new. }
  assert (Hop : forall path method,
            logs_only skip_notice
              (enrich_operation getEndpointSnippets targets false schema path method)).
  { intros path method. unfold enrich_operation.
    apply logs_only_bind.
    { apply logs_only_same. intros s. unfold call_generator. by case_match. }
    intros snippets.
    apply logs_only_bind; [apply logs_only_quiet_message|intros _].
    apply logs_only_bind; [apply Hinit|intros _].
    apply logs_only_for_each. intros entry. apply Hadd. }
  unfold enrichSchema.
  apply logs_only_bind; [apply logs_only_hasOwnProperty|intros has].
  destruct (negb has); [by apply logs_only_same|].
  apply logs_only_bind; [apply logs_only_Get|intros paths].
  apply logs_only_bind; [apply logs_only_for_in_keys|intros keys].
  apply logs_only_bind; [|intros _; by apply logs_only_same].
  apply logs_only_for_each. intros path. unfold enrich_path.
  apply logs_only_bind; [apply logs_only_Get|intros p].
  apply logs_only_bind; [apply logs_only_Get|intros item].
  apply logs_only_bind; [apply logs_only_for_in_keys|intros methods].
  apply logs_only_for_each. intros method. apply Hop.
Qed.

(** ** An operation without samples *)

Lemma store_prop_absent k x ps :
  lookup_prop k ps = None -> store_prop k x ps = ps ++ [(k, x)].
Proof.
  induction ps as [|[k0 v0] ps IH]; cbn; [done|].
  destruct (String.eqb k0 k); [done|]. intros H. by rewrite IH.
Qed.

Lemma lookup_prop_indices_absent (a k : nat) (l : list nat) :
  (forall i, i ∈ l -> i <> k) ->
  lookup_prop (index_string (N.of_nat k))
    ((fun i => (index_string (N.of_nat i), VRef (a + 1 + i))) <$> l) = None.
Proof.
  induction l as [|i l IH]; intros Hl; cbn; [done|].
  destruct (String.eqb_spec (index_string (N.of_nat i)) (index_string (N.of_nat k)))
    as [E|_].
  - apply index_string_inj, Nat2N.inj in E. destruct (Hl i); [by left|done].
  - apply IH. intros j Hj. apply Hl. by right.
Qed.

Lemma samples_array_absent a n k :
  n <= k ->
  lookup_prop (index_string (N.of_nat k)) (samples_array a n).(o_props) = None.
Proof.
  intros Hk. apply lookup_prop_indices_absent.
  intros i Hi. apply elem_of_seq in Hi. lia.
Qed.

Lemma samples_array_next a n :
  (N.of_nat n < 4294967295)%N ->
  obj_set (samples_array a n) (index_string (N.of_nat n)) (VRef (a + 1 + n))
  = samples_array a (S n).
Proof.
  intros Hn. unfold obj_set, samples_array. cbn [o_array o_length o_props].
  rewrite (parse_index_string _ Hn), N.leb_refl. f_equal; [lia|].
  rewrite store_prop_absent by (by apply (samples_array_absent a n n)).
  by rewrite seq_S, fmap_app.
Qed.

Section FreshOperation.

Variable getEndpointSnippets :
  heap -> value -> string -> string -> list string -> option (list snippet).
Variable targets : list string.
Variable isVerbose : bool.
Variable schema : value.

(** The loop over the snippets on a sequence that holds the samples
    written so far and nothing else. *)
Lemma for_each_add_snippet_fresh path method (h0 h' : heap) a :
  forall (rest done : list snippet) (s : state),
    a = List.length h' ->
    (N.of_nat (List.length done + List.length rest) < 4294967295)%N ->
    s.(st_heap)
    = h' ++ samples_array a (List.length done) :: (sample_object <$> done) ->
    rtc (write_step schema) h0 s.(st_heap) ->
    (forall h, rtc (write_step schema) s.(st_heap) h ->
               samples_at h schema path method = VRef a) ->
    exists s',
      for_each (imap (fun i sn => (N.of_nat (List.length done + i), sn)) rest)
        (add_snippet isVerbose schema path method) s = Done tt s' /\
      s'.(st_heap)
      = h' ++ samples_array a (List.length done + List.length rest)
           :: (sample_object <$> (done ++ rest)).
Proof.
  induction rest as [|sn rest IH]; intros done s Ha Hn Hs Hreach Hsamples.
  - exists s. split; [done|]. by rewrite Nat.add_0_r, app_nil_r.
  - rewrite imap_cons. cbn [for_each]. unfold bind. rewrite Nat.add_0_r.
    assert (Hlen : List.length (st_heap s) = a + 1 + List.length done).
    { rewrite Hs, length_app. cbn. rewrite length_fmap. lia. }
    assert (Harr : st_heap s !! a = Some (samples_array a (List.length done))).
    { rewrite Hs, lookup_app_r by lia. by rewrite Ha, Nat.sub_diag. }
    rewrite (add_snippet_writes isVerbose schema path method _ sn s a _
               (Hsamples _ (rtc_refl _ _)) Harr).
    2:{ unfold obj_get. rewrite samples_array_absent by done.
        destruct (String.eqb_spec (index_string (N.of_nat (List.length done))) "length")
          as [E|_]; [by apply index_string_not_length in E|].
        by rewrite andb_false_r. }
    set (s1 := mkState _ _).
    assert (Hstep : rtc (write_step schema) (st_heap s) (st_heap s1)).
    { pose proof (writes_samples_add_snippet isVerbose schema path method
                    (N.of_nat (List.length done), sn) s) as Hw.
      rewrite (add_snippet_writes isVerbose schema path method _ sn s a _
                 (Hsamples _ (rtc_refl _ _)) Harr) in Hw; [exact Hw|].
      unfold obj_get. rewrite samples_array_absent by done.
      destruct (String.eqb_spec (index_string (N.of_nat (List.length done))) "length")
        as [E|_]; [by apply index_string_not_length in E|].
      by rewrite andb_false_r. }
    destruct (IH (done ++ [sn]) s1) as (s' & Hrun & Hheap).
    + done.
    + rewrite length_app. cbn in *. lia.
    + cbn [s1 st_heap]. rewrite Hlen, samples_array_next by (cbn in Hn; lia).
      rewrite Hs, <- app_assoc. rewrite Ha at 1.
      rewrite <- (Nat.add_0_r (List.length h')) at 1.
      rewrite insert_app_r. cbn. rewrite length_app, fmap_app. cbn.
      by rewrite Nat.add_1_r.
    + by etrans.
    + intros h Hh. apply Hsamples. by etrans.
    + exists s'. split.
      * rewrite <- Hrun. f_equal. apply imap_ext. intros i x _. cbn.
        rewrite length_app. cbn. do 2 f_equal. lia.
      * rewrite Hheap, length_app, <- app_assoc. cbn. do 3 f_equal. lia.
Qed.

(** An operation without a truthy ["x-code-samples"] gets exactly the
    generated samples, in the generator's order: the field refers to a
    new array with one entry per snippet, entry [i] refers to a new object
    made from snippet [i], and nothing else in the heap changes. *)
Theorem fresh_operation_gets_samples path method s l o snippets
    (Hop : operation_at s.(st_heap) schema path method = VRef l)
    (Hl : s.(st_heap) !! l = Some o)
    (Hfalsy : toBoolean (obj_get o "x-code-samples") = false)
    (Hgen : getEndpointSnippets s.(st_heap) schema path method targets
            = Some snippets)
    (Hn : (N.of_nat (List.length snippets) < 4294967295)%N) :
  exists s',
    enrich_operation getEndpointSnippets targets isVerbose schema path method s
    = Done tt s' /\
    s'.(st_heap)
    = <[l := obj_set o "x-code-samples" (VRef (List.length s.(st_heap)))]> s.(st_heap)
        ++ samples_array (List.length s.(st_heap)) (List.length snippets)
        :: (sample_object <$> snippets).
Proof.
  unfold enrich_operation, bind, call_generator. rewrite Hgen.
  rewrite messageIfVerbose_eq. set (s1 := mkState _ _).
  rewrite (init_code_samples_writes isVerbose schema path method s1 l o Hop Hl Hfalsy).
  cbn [s1 st_heap st_log]. set (s2 := mkState _ _).
  set (a := List.length (st_heap s)).
  set (h' := <[l := obj_set o "x-code-samples" (VRef a)]> (st_heap s)).
  pose proof (lookup_lt_Some _ _ _ Hl) as Hlt.
  assert (Hs2 : st_heap s2 = h' ++ samples_array a 0 :: (sample_object <$> [])).
  { cbn [s2 st_heap]. unfold h'. by rewrite insert_app_l. }
  destruct (samples_at_written schema path method (st_heap s) l o empty_array
              Hop Hl Hfalsy empty_array_no_refs) as [Hsamples _].
  destruct (for_each_add_snippet_fresh path method (st_heap s) h' a snippets [] s2)
    as (s' & Hrun & Hheap).
  - unfold h'. by rewrite length_insert.
  - done.
  - exact Hs2.
  - cbn [s2 st_heap]. apply rtc_once. by eapply write_field.
  - intros h Hh. apply frame_steps in Hh.
    rewrite (frame_samples_truthy schema _ _ _ _ Hh); [exact Hsamples|].
    cbn [s2 st_heap]. by rewrite Hsamples.
  - exists s'. split; [exact Hrun|]. exact Hheap.
Qed.

End FreshOperation.

(** ** What a returned run has done *)

Lemma for_each_Done_elem {A} schema (xs : list A) (body : A -> M unit) s s' :
  (forall x, writes_samples schema (body x)) ->
  for_each xs body s = Done tt s' ->
  forall x, x ∈ xs ->
    exists sa sb,
      body x sa = Done tt sb /\
      rtc (write_step schema) s.(st_heap) sa.(st_heap) /\
      rtc (write_step schema) sb.(st_heap) s'.(st_heap).
Proof.
  intros Hw. revert s. induction xs as [|y xs IH]; intros s Hrun x Hx.
  - by apply elem_of_nil in Hx.
  - cbn in Hrun. unfold bind in Hrun.
    destruct (body y s) as [[] s1|] eqn:E1; [|done].
    pose proof (Hw y s) as Hw1. rewrite E1 in Hw1. cbn in Hw1.
    pose proof (writes_samples_for_each schema xs body Hw s1) as Hw2.
    rewrite Hrun in Hw2. cbn in Hw2.
    apply elem_of_cons in Hx as [->|Hx].
    + by exists s, s1.
    + destruct (IH s1 Hrun x Hx) as (sa & sb & Hb & Ha & Hb').
      exists sa, sb. split_and!; [done|by etrans|done].
Qed.

Lemma indexed_elem (snippets : list snippet) i :
  i < List.length snippets -> exists sn, (N.of_nat i, sn) ∈ indexed snippets.
Proof.
  intros Hi. destruct (lookup_lt_is_Some_2 snippets i Hi) as [sn Hsn].
  exists sn. unfold indexed. apply elem_of_lookup_imap. by exists i, sn.
Qed.

Section Occupied.

Variable getEndpointSnippets :
  heap -> value -> string -> string -> list string -> option (list snippet).
Variable targets : list string.
Variable isVerbose : bool.
Variable schema : value.

Lemma enrich_operation_Done_occupied path method s s' :
  enrich_operation getEndpointSnippets targets isVerbose schema path method s
  = Done tt s' ->
  exists snippets,
    getEndpointSnippets s.(st_heap) schema path method targets = Some snippets /\
    forall i, i < List.length snippets ->
      toBoolean (entry_at s'.(st_heap) schema path method (N.of_nat i)) = true.
Proof.
  unfold enrich_operation, bind, call_generator.
  destruct (getEndpointSnippets (st_heap s) schema path method targets)
    as [snippets|]; [|done].
  rewrite messageIfVerbose_eq. set (s1 := mkState _ _).
  destruct (init_code_samples isVerbose schema path method s1) as [[] s2|]; [|done].
  intros Hrun. exists snippets. split; [done|]. intros i Hi.
  destruct (indexed_elem snippets i Hi) as [sn Hsn].
  by eapply for_each_add_snippet_truthy.
Qed.

(** After a run that returned, with a generator whose answers are not
    changed by the sample writes that can follow the heap the run starts
    in (it may read the rest of the document) and a document whose paths
    mapping and path items are not shared, every member of every path
    item has a sample at each index the generator produces for it. *)
Theorem every_generated_index_occupied s v s1
    (Hgen : ignores_samples getEndpointSnippets schema targets s.(st_heap))
    (Hshape : paths_unshared s.(st_heap) schema)
    (Hrun : enrichSchema getEndpointSnippets targets isVerbose schema s = Done v s1) :
  forall paths methods path method,
    keys_at s.(st_heap) (field s.(st_heap) schema "paths") = Some paths ->
    path ∈ paths ->
    keys_at s.(st_heap) (field s.(st_heap) (field s.(st_heap) schema "paths") path)
    = Some methods ->
    method ∈ methods ->
    exists snippets,
      getEndpointSnippets s1.(st_heap) schema path method targets = Some snippets /\
      forall i, i < List.length snippets ->
        toBoolean (entry_at s1.(st_heap) schema path method (N.of_nat i)) = true.
Proof.
  intros paths methods path method Hpaths Hpath Hmethods Hmethod.
  unfold enrichSchema, bind in Hrun.
  destruct (hasOwnProperty schema "paths" s) as [has s_|] eqn:Ehas; [|done].
  destruct (hasOwnProperty_Done _ _ _ _ _ Ehas) as [-> Hroot].
  destruct has; cbn [negb] in Hrun; [|done].
  rewrite Get_eq, Hroot, for_in_keys_eq, Hpaths in Hrun.
  destruct (for_each paths _ s) as [[] s1'|] eqn:Eloop; [|done].
  injection Hrun as _ ->.
  destruct (for_each_Done_elem schema paths _ s s1
              (writes_samples_enrich_path getEndpointSnippets targets isVerbose schema)
              Eloop path Hpath) as (sa & sb & Hbody & La & Lb).
  unfold enrich_path, bind in Hbody.
  rewrite Get_eq, (frame_readable schema _ _ _ (frame_steps _ _ _ La) Hroot) in Hbody.
  rewrite (root_paths_kept schema _ _ Hroot (frame_steps _ _ _ La)) in Hbody.
  rewrite Get_eq in Hbody.
  destruct (readable (st_heap sa) _); [|done].
  rewrite (later_item schema (st_heap s) Hshape _ path La) in Hbody.
  rewrite for_in_keys_eq in Hbody.
  rewrite (later_keys_item schema (st_heap s) Hshape _ path La), Hmethods in Hbody.
  destruct (for_each_Done_elem schema methods _ sa sb
              (writes_samples_enrich_operation getEndpointSnippets targets isVerbose
                 schema path)
              Hbody method Hmethod) as (sc & sd & Hop & Lc & Ld).
  destruct (enrich_operation_Done_occupied path method sc sd Hop)
    as (snippets & Hsn & Hocc).
  assert (Lend : rtc (write_step schema) (st_heap sd) (st_heap s1)) by by etrans.
  assert (Lc0 : rtc (write_step schema) (st_heap s) (st_heap sc)) by by etrans.
  exists snippets. split.
  - rewrite <- Hsn, (Hgen (st_heap sc) path method Lc0). apply Hgen.
    etrans; [exact Lc0|]. etrans; [|exact Lend].
    pose proof (writes_samples_enrich_operation getEndpointSnippets targets
                  isVerbose schema path method sc) as Hw.
    by rewrite Hop in Hw.
  - intros i Hi.
    rewrite (frame_entry_truthy schema _ _ _ _ _ (frame_steps _ _ _ Lend)
               (Hocc i Hi)).
    exact (Hocc i Hi).
Qed.

End Occupied.

(** ** Parsed documents *)

(** For a parsed text, enrichment leaves the document root, the paths
    mapping and every path item exactly as they were: these objects are
    neither operations nor sample sequences. *)
Theorem parsed_structure_untouched
    (getEndpointSnippets :
       heap -> value -> string -> string -> list string -> option (list snippet))
    (targets : list string) (isVerbose : bool) (d : json) l o :
  let h := (parsed d).(st_heap) in
  let h' := (final_state
               (enrichSchema getEndpointSnippets targets isVerbose (root d)
                  (parsed d))).(st_heap) in
  (root d = VRef l \/
   field h (root d) "paths" = VRef l \/
   exists path, field h (field h (root d) "paths") path = VRef l) ->
  h !! l = Some o ->
  h' !! l = Some o.
Proof.
  intros h h' Hwhich Hl.
  pose proof (enrichSchema_frame getEndpointSnippets targets isVerbose (root d)
                (parsed d)) as F.
  fold h h' in F. pose proof (parsed_tree_shaped d) as T. fold h in T.
  destruct Hwhich as [Hroot|Hpaths].
  - destruct (load_loaded d initial_state tree_shaped_nil) as (v & s' & E & _ & Hfresh).
    assert (Hv : v = root d) by (unfold root; by rewrite E).
    assert (Hs' : s' = parsed d) by (unfold parsed; by rewrite E).
    subst v s'. destruct (Hfresh l Hroot) as [_ Hlast]. fold h in Hlast.
    apply (frame_unchanged (root d) h h' l o F Hl).
    + intros (path & method & Hop). unfold operation_at in Hop.
      destruct (field_refers _ _ _ _ Hop) as (i & _ & Hm).
      pose proof (tree_down _ T _ _ _ Hm). pose proof (refers_lt _ _ _ _ Hm). lia.
    + intros (path & method & Hx).
      destruct (field_refers _ _ _ _ Hx) as (i & _ & Hm).
      pose proof (tree_down _ T _ _ _ Hm). pose proof (refers_lt _ _ _ _ Hm). lia.
  - destruct (tree_paths_unshared h (root d) T l Hpaths) as (_ & Hop & Hsa).
    by apply (frame_unchanged (root d) h h' l o F Hl).
Qed.

(** ** Instances of the further properties *)

Module PetsMore.
Import PetsExample.

Lemma member_not_an_object_throws_witness :
  exists s',
    enrich_operation generator ["shell_curl"] false (root with_summary)
      "/pets" "summary" (parsed with_summary) = Thrown TypeError s'
    /\ s'.(st_heap) = (parsed with_summary).(st_heap).
Proof.
  apply (member_not_an_object_throws generator ["shell_curl"] false
           (root with_summary) "/pets" "summary" (parsed with_summary)
           [mkSnippet "shell_curl" "curl ..."]).
  - vm_compute; reflexivity.
  - reflexivity.
  - vm_compute. exact I.
Defined.

Lemma paths_without_keys_unchanged_witness :
  let d := JObj [("paths", JNull)] in
  enrichSchema generator ["shell_curl"] true (VRef 0) (parsed d)
  = Done (VRef 0) (parsed d).
Proof.
  intros d.
  apply (paths_without_keys_unchanged generator ["shell_curl"] true 0
           (mkObject false 0 [("paths", VNull)]) VNull (parsed d));
    vm_compute; reflexivity.
Defined.

Lemma fresh_operation_gets_samples_witness :
  exists s',
    enrich_operation generator ["shell_curl"] false (root document) "/pets" "get"
      (parsed document) = Done tt s' /\
    s'.(st_heap)
    = <[0 := obj_set (mkObject false 0 []) "x-code-samples" (VRef 4)]>
        (parsed document).(st_heap)
        ++ samples_array 4 1 :: [sample_object (mkSnippet "shell_curl" "curl ...")].
Proof.
  apply (fresh_operation_gets_samples generator ["shell_curl"] false (root document)
           "/pets" "get" (parsed document) 0 (mkObject false 0 [])
           [mkSnippet "shell_curl" "curl ..."]);
    vm_compute; reflexivity.
Defined.

Lemma every_generated_index_occupied_witness :
  exists snippets,
    reads_parameters
      (final_state (enrichSchema reads_parameters ["shell_curl"] false
                      (root with_parameters) (parsed with_parameters))).(st_heap)
      (root with_parameters) "/pets" "get" ["shell_curl"] = Some snippets /\
    forall i, i < List.length snippets ->
      toBoolean
        (entry_at
           (final_state (enrichSchema reads_parameters ["shell_curl"] false
                           (root with_parameters) (parsed with_parameters))).(st_heap)
           (root with_parameters) "/pets" "get" (N.of_nat i)) = true.
Proof.
  assert (Hrun : enrichSchema reads_parameters ["shell_curl"] false
                   (root with_parameters) (parsed with_parameters)
                 = Done (root with_parameters)
                     (final_state
                        (enrichSchema reads_parameters ["shell_curl"] false
                           (root with_parameters) (parsed with_parameters))))
    by (vm_compute; reflexivity).
  assert (Hgen : ignores_samples reads_parameters (root with_parameters)
                   ["shell_curl"] (parsed with_parameters).(st_heap)).
  { apply reads_parameters_ignores_samples. vm_compute; reflexivity. }
  apply (every_generated_index_occupied reads_parameters ["shell_curl"] false
           (root with_parameters) (parsed with_parameters) _ _
           Hgen (parsed_unshared with_parameters) Hrun ["/pets"] ["get"]
           "/pets" "get").
  - vm_compute; reflexivity.
  - apply elem_of_cons; by left.
  - vm_compute; reflexivity.
  - apply elem_of_cons; by left.
Defined.

Lemma parsed_structure_untouched_witness :
  (final_state
     (enrichSchema generator ["shell_curl"] false (root document)
        (parsed document))).(st_heap) !! 3
  = Some (mkObject false 0 [("paths", VRef 2)]).
Proof.
  apply (parsed_structure_untouched generator ["shell_curl"] false document 3
           (mkObject false 0 [("paths", VRef 2)])).
  - left. vm_compute; reflexivity.
  - vm_compute; reflexivity.
Defined.

End PetsMore.

(** * Properties of the command line checks *)

Module CliFacts.
Import Cli.

Local Notation "m >> k" := (andThen m (fun _ => k))
  (at level 100, right associativity).

Lemma quiet_logMessage msg n mt : quiet (logMessage msg n mt).
Proof.
  intros p Hp; split; [|discriminate].
  cbn. apply Forall_app; split; [done|]. by repeat constructor.
Qed.

Lemma quiet_skip : quiet skip.
Proof. intros p Hp; split; [done|discriminate]. Qed.

Lemma quiet_exit : quiet (exit 1).
Proof. intros p Hp; split; [done|]. by intros c p' [= <- _]. Qed.

Lemma quiet_set_isVerbose b : quiet (set_isVerbose b).
Proof. intros p Hp; split; [done|discriminate]. Qed.

Lemma quiet_set_targets ts : quiet (set_targets ts).
Proof. intros p Hp; split; [done|discriminate]. Qed.

Lemma quiet_andThen {A B} (m : P A) (f : A -> P B) :
  quiet m -> (forall a, quiet (f a)) -> quiet (andThen m f).
Proof.
  intros Hm Hf p Hp. unfold andThen.
  destruct (Hm p Hp) as [Ht Hc]. destruct (m p) as [a p1|c p1] eqn:E.
  - apply Hf, Ht.
  - split; [exact Ht|]. intros c' p' [= <- <-]. by eapply Hc.
Qed.

Lemma quiet_checkParameters argv : quiet (checkParameters argv).
Proof.
  unfold checkParameters.
  repeat case_match;
    repeat (first [apply quiet_andThen; [|intros _] | apply quiet_logMessage
                  | apply quiet_exit | apply quiet_skip | apply quiet_set_isVerbose]).
Qed.

Lemma quiet_check_targets ts : quiet (check_targets ts).
Proof.
  induction ts as [|t ts IH]; cbn; [apply quiet_skip|].
  case_match; [|done].
  apply quiet_andThen; [apply quiet_logMessage|intros _; apply quiet_exit].
Qed.

Lemma quiet_configureTargets argv : quiet (configureTargets argv).
Proof.
  intros p. unfold configureTargets.
  repeat case_match;
    repeat (first [apply quiet_andThen; [|intros _] | apply quiet_logMessage
                  | apply quiet_check_targets | apply quiet_set_targets]).
Qed.

Lemma quiet_checkOutputFileType f : quiet (checkOutputFileType f).
Proof.
  unfold checkOutputFileType. case_match;
    repeat (first [apply quiet_andThen; [|intros _] | apply quiet_logMessage
                  | apply quiet_exit | apply quiet_skip]).
Qed.

Lemma quiet_checks argv : quiet (checks argv).
Proof.
  unfold checks.
  apply quiet_andThen; [apply quiet_checkParameters|intros _].
  apply quiet_andThen; [apply quiet_configureTargets|intros _].
  apply quiet_checkOutputFileType.
Qed.

Lemma processInputs_checks rm proc argv c p p' :
  checks argv p = Exit c p' -> processInputs rm proc argv p = Exit c p'.
Proof.
  unfold checks, processInputs, andThen.
  destruct (checkParameters argv p); [|done].
  destruct (configureTargets argv _); [|done].
  destruct (checkOutputFileType _ _); [done|done].
Qed.

Lemma checkOutputFileType_rejects f p :
  endsWith f "json" = false -> exists p', checkOutputFileType f p = Exit 1 p'.
Proof. intros H. unfold checkOutputFileType. rewrite H. cbn. eauto. Qed.

Lemma checks_reject_output argv p :
  endsWith (nth 3 argv "") "json" = false ->
  exists c p', checks argv p = Exit c p'.
Proof.
  intros H. unfold checks, andThen.
  destruct (checkParameters argv p) as [[] p1|]; [|eauto].
  destruct (configureTargets argv p1) as [[] p2|]; [|eauto].
  destruct (checkOutputFileType_rejects _ p2 H) as [p' ->]. eauto.
Qed.

(** C8.  A run whose output file name does not end in [json] ends with
    exit code 1 in the checks, whatever the file stages would do: its
    trace holds log lines only, so no file was read, removed or
    written. *)
Theorem output_type_gate rm proc node script raw final rest :
  endsWith final "json" = false ->
  exists p',
    processInputs rm proc (node :: script :: raw :: final :: rest) start = Exit 1 p'
    /\ only_logged p'.(p_trace).
Proof.
  intros H. set (argv := _ :: _).
  destruct (checks_reject_output argv start H) as (c & p' & E).
  destruct (quiet_checks argv start) as [Ht Hc]; [by constructor|].
  rewrite E in Ht. apply Hc in E as Hc1. subst c.
  exists p'. split; [by apply processInputs_checks|exact Ht].
Qed.

Lemma output_type_gate_yaml :
  endsWith "result.yaml" "json" = false /\
  exists p',
    processInputs (fun _ => skip) (fun _ _ => skip)
      ["node"; "parse.js"; "raw.json"; "result.yaml"] start = Exit 1 p'
    /\ only_logged p'.(p_trace).
Proof.
  split; [reflexivity|].
  apply (output_type_gate (fun _ => skip) (fun _ _ => skip)
           "node" "parse.js" "raw.json" "result.yaml" []).
  reflexivity.
Defined.


Lemma check_targets_invalid ts p :
  (exists t, t ∈ ts /\ includes validTargets t = false) ->
  exists bad p',
    bad ∈ ts /\ includes validTargets bad = false /\
    check_targets ts p = Exit 1 p' /\
    p'.(p_trace) = p.(p_trace)
      ++ [Logged (mkMessage 0 Erroneous ("Target '" +:+ bad +:+ "' is not valid"))].
Proof.
  induction ts as [|t ts IH]; intros (x & Hx & Hbad).
  - by apply elem_of_nil in Hx.
  - cbn [check_targets]. destruct (includes validTargets t) eqn:Et; cbn [negb].
    + apply elem_of_cons in Hx as [->|Hx]; [congruence|].
      destruct IH as (bad & p' & ? & ? & ? & ?); [eauto|].
      exists bad, p'. split_and!; [apply elem_of_cons; by right|done..].
    + eexists t, _. split_and!; [apply elem_of_cons; by left|done|reflexivity|done].
Qed.

Lemma checkParameters_enough argv p :
  4 <= List.length argv ->
  checkParameters argv p =
    Continue tt (mkProcess (verbose_flag argv || p.(p_isVerbose)) p.(p_targets)
                   (p.(p_trace) ++
                    if verbose_flag argv
                    then [Logged (mkMessage 0 Progress "Switching to verbose logging")]
                    else [])).
Proof.
  intros Hlen. unfold checkParameters, verbose_flag.
  destruct (Nat.ltb_spec (List.length argv) 3); [lia|].
  destruct (Nat.ltb_spec (List.length argv) 4); [lia|].
  destruct (_ || _); cbn; [done|].
  rewrite app_nil_r. by destruct p.
Qed.

(** C5.  With a first target other than [default], a target outside
    [validTargets] (which has 22 entries) ends the run with exit code 1
    after an error line naming the first such target, before any file
    is touched; with [default] first, the tokens are not checked at all
    and the default targets stay in place. *)
Theorem target_validation rm proc node script raw final first rest :
  let argv := node :: script :: raw :: final :: first :: rest in
  List.length validTargets = 22 /\
  (first <> "default" ->
   (exists t, t ∈ targetsToCheck argv (verbose_flag argv)
              /\ includes validTargets t = false) ->
   exists bad p',
     bad ∈ targetsToCheck argv (verbose_flag argv) /\
     includes validTargets bad = false /\
     processInputs rm proc argv start = Exit 1 p' /\
     only_logged p'.(p_trace) /\
     last p'.(p_trace)
       = Some (Logged (mkMessage 0 Erroneous ("Target '" +:+ bad +:+ "' is not valid")))) /\
  (first = "default" ->
   exists p',
     (checkParameters argv >> configureTargets argv) start = Continue tt p' /\
     p'.(p_targets) = targets /\
     only_logged p'.(p_trace) /\
     last p'.(p_trace)
       = Some (Logged (mkMessage 1 Complete "Default specified, skipping."))).
Proof.
  intros argv. split; [reflexivity|]. split.
  - intros Hfirst Hex.
    assert (Hlen : 4 <= List.length argv) by (cbn; lia).
    assert (E4 : String.eqb first "default" = false) by by apply String.eqb_neq.
    assert (Hchecks : exists bad p',
               bad ∈ targetsToCheck argv (verbose_flag argv) /\
               includes validTargets bad = false /\
               checks argv start = Exit 1 p' /\
               last p'.(p_trace)
               = Some (Logged (mkMessage 0 Erroneous
                                 ("Target '" +:+ bad +:+ "' is not valid")))).
    { unfold checks, andThen. rewrite (checkParameters_enough argv start Hlen).
      unfold configureTargets, andThen.
      replace (4 <? List.length argv)%nat with true by done.
      cbn [logMessage p_isVerbose p_targets p_trace start].
      replace (nth 4 argv "") with first by done. rewrite E4, orb_false_r.
      match goal with
      | |- context [check_targets ?ts ?p] =>
          destruct (check_targets_invalid ts p Hex)
            as (bad & p' & Hin & Hbad & Hrun & Htr); rewrite Hrun
      end.
      exists bad, p'. split_and!; [done..|]. by rewrite Htr, last_snoc. }
    destruct Hchecks as (bad & p' & Hin & Hbad & Hchecks & Hlast).
    exists bad, p'. split_and!; [done|done|by apply processInputs_checks| |done].
    destruct (quiet_checks argv start) as [Ht _]; [by constructor|].
    by rewrite Hchecks in Ht.
  - intros ->.
    assert (Hlen : 4 <= List.length argv) by (cbn; lia).
    unfold andThen. rewrite (checkParameters_enough argv start Hlen).
    unfold configureTargets, andThen.
    replace (4 <? List.length argv)%nat with true by done.
    cbn [logMessage nth argv]. cbn [String.eqb Ascii.eqb Bool.eqb]. cbn - [verbose_flag].
    eexists. split; [reflexivity|]. cbn - [verbose_flag]. split_and!; [done| |].
    + destruct (verbose_flag argv); by repeat constructor.
    + by rewrite last_snoc.
Qed.

Lemma target_validation_witness :
  "ruby_rails" <> "default" /\
  (exists t, t ∈ targetsToCheck
               ["node"; "parse.js"; "raw.json"; "out.json"; "ruby_rails"; "-v"] true
             /\ includes validTargets t = false) /\
  exists bad p',
    includes validTargets bad = false /\
    processInputs (fun _ => skip) (fun _ _ => skip)
      ["node"; "parse.js"; "raw.json"; "out.json"; "ruby_rails"; "-v"] start
      = Exit 1 p'.
Proof.
  assert (Hne : "ruby_rails" <> "default") by discriminate.
  assert (Hex : exists t, t ∈ targetsToCheck
               ["node"; "parse.js"; "raw.json"; "out.json"; "ruby_rails"; "-v"] true
             /\ includes validTargets t = false).
  { exists "ruby_rails". split; [apply elem_of_cons; by left|reflexivity]. }
  split; [exact Hne|]. split; [exact Hex|].
  destruct (target_validation (fun _ => skip) (fun _ _ => skip)
              "node" "parse.js" "raw.json" "out.json" "ruby_rails" ["-v"])
    as (_ & H & _).
  destruct (H Hne Hex) as (bad & p' & _ & Hbad & Hrun & _).
  exists bad, p'. split; [exact Hbad|exact Hrun].
Defined.

(** Without any argument after the output file the defaults are kept
    and a warning is logged. *)
Lemma configureTargets_no_arguments node script raw final :
  let argv := [node; script; raw; final] in
  (checkParameters argv >> configureTargets argv) start
  = Continue tt
      (mkProcess (verbose_flag argv) targets
         ((if verbose_flag argv
           then [Logged (mkMessage 0 Progress "Switching to verbose logging")]
           else [])
          ++ [Logged (mkMessage 0 Warning
                ("No targets specified, defaulting to internally specified:"
                 +:+ listed targets))])).
Proof.
  intros argv. unfold andThen.
  rewrite (checkParameters_enough argv start) by (cbn; lia).
  unfold configureTargets. cbn - [verbose_flag listed targets].
  by rewrite orb_false_r.
Qed.

(** C7 at the input where it fails: the verbosity flag alone counts as
    a supplied argument, so the target set becomes empty and no warning
    is logged. *)
Theorem verbose_flag_alone_empties_targets :
  let argv := ["node"; "parse.js"; "raw.json"; "out.json"; "-v"] in
  targetsToCheck argv true = [] /\
  exists p',
    (checkParameters argv >> configureTargets argv) start = Continue tt p' /\
    p'.(p_targets) = [] /\
    p'.(p_targets) <> targets /\
    Forall (fun e => match e with
                     | Logged m => m.(m_type) <> Warning
                     | _ => True
                     end) p'.(p_trace).
Proof.
  intros argv. split; [reflexivity|].
  eexists. split; [subst argv; vm_compute; reflexivity|].
  cbn. split_and!; [done|done|].
  repeat constructor; cbn; discriminate.
Qed.

End CliFacts.

(** * Further properties of the command line checks *)

Lemma string_length_append (a b : string) :
  String.length (a +:+ b) = String.length a + String.length b.
Proof. induction a as [|c a IH]; simpl; [done|]. by f_equal. Qed.

Lemma substring_full (s : string) : String.substring 0 (String.length s) s = s.
Proof. induction s as [|c s IH]; simpl; [done|]. by f_equal. Qed.

Lemma substring_skip (pre suf : string) (m : nat) :
  String.substring (String.length pre) m (pre +:+ suf) = String.substring 0 m suf.
Proof. induction pre as [|c pre IH]; simpl; [done|]. exact IH. Qed.

Lemma substring_split (s : string) (k : nat) :
  k <= String.length s ->
  s = String.substring 0 k s +:+ String.substring k (String.length s - k) s.
Proof.
  revert k. induction s as [|c s IH]; intros k Hk.
  - cbn in Hk. by replace k with 0 by lia.
  - destruct k as [|k]; simpl.
    + by rewrite substring_full.
    + change (String c (String.substring 0 k s) +:+ ?t)
        with (String c (String.substring 0 k s +:+ t)).
      f_equal. apply IH. simpl in Hk. lia.
Qed.

(** [endsWith] holds exactly of the strings that are something followed
    by the suffix. *)
Lemma endsWith_iff (s suffix : string) :
  endsWith s suffix = true <-> exists pre, s = pre +:+ suffix.
Proof.
  unfold endsWith. split.
  - intros H. apply andb_true_iff in H as [Hlen Heq].
    apply Nat.leb_le in Hlen. apply String.eqb_eq in Heq.
    exists (String.substring 0 (String.length s - String.length suffix) s).
    pose proof (substring_split s (String.length s - String.length suffix)
                  ltac:(lia)) as Hs.
    replace (String.length s - (String.length s - String.length suffix))
      with (String.length suffix) in Hs by lia.
    by rewrite Heq in Hs.
  - intros [pre ->]. rewrite string_length_append.
    replace (String.length pre + String.length suffix - String.length suffix)
      with (String.length pre) by lia.
    rewrite substring_skip, substring_full, String.eqb_refl, andb_true_r.
    apply Nat.leb_le. lia.
Qed.

Lemma length_repeat_string (s : string) (n : nat) :
  String.length (repeat_string s n) = n * String.length s.
Proof.
  induction n as [|n IH]; simpl; [done|]. by rewrite string_length_append, IH.
Qed.

(** The prefix of a log line is empty at depth 0 or below and grows by
    two characters per level: at depth [n > 0] it is [2n + 2] characters
    long. *)
Theorem generateTreeLines_length (nesting : Z) :
  String.length (generateTreeLines nesting)
  = if (0 <? nesting)%Z then Z.to_nat (2 * nesting + 2) else 0.
Proof.
  unfold generateTreeLines. destruct (Z.ltb_spec 0 nesting) as [Hpos|Hneg]; [|done].
  rewrite !string_length_append, length_repeat_string. cbn [String.length]. lia.
Qed.

Module CliMore.
Import Cli.

Local Notation "m >> k" := (andThen m (fun _ => k))
  (at level 100, right associativity).

(** With fewer than two arguments after the script name the run ends
    with exit code 1 after an error line and the usage line; the
    verbosity flag is not looked at and no file stage is entered. *)
Theorem too_few_arguments_exit rm proc argv (Hlen : List.length argv < 4) :
  exists p',
    processInputs rm proc argv start = Exit 1 p' /\
    p'.(p_isVerbose) = false /\
    p'.(p_targets) = targets /\
    exists reason,
      p'.(p_trace) = [Logged (mkMessage 0 Erroneous reason);
                      Logged (mkMessage 0 Usage usage_text)].
Proof.
  unfold processInputs, andThen, checkParameters.
  destruct (Nat.ltb_spec (List.length argv) 3).
  - cbn. eexists. split; [reflexivity|]. cbn. eauto.
  - destruct (Nat.ltb_spec (List.length argv) 4); [|lia].
    cbn. eexists. split; [reflexivity|]. cbn. eauto.
Qed.

Lemma too_few_arguments_exit_witness :
  exists p',
    processInputs (fun _ => skip) (fun _ _ => skip) ["node"; "parse.js"; "-v"] start
    = Exit 1 p' /\ p'.(p_isVerbose) = false.
Proof.
  destruct (too_few_arguments_exit (fun _ => skip) (fun _ _ => skip)
              ["node"; "parse.js"; "-v"]) as (p' & E & Hv & _).
  - cbn. lia.
  - exists p'. split; [exact E|exact Hv].
Defined.

Lemma check_targets_valid ts p :
  Forall (fun t => includes validTargets t = true) ts ->
  check_targets ts p = Continue tt p.
Proof.
  induction 1 as [|t ts Ht _ IH]; cbn [check_targets]; [done|].
  by rewrite Ht.
Qed.

(** When every supplied target is in [validTargets] (and the first is
    not [default]), the targets of the run become the supplied list, in
    the order given and without the trailing verbosity flag. *)
Theorem valid_targets_are_taken node script raw final first rest
    (Hfirst : first <> "default") :
  let argv := node :: script :: raw :: final :: first :: rest in
  Forall (fun t => includes validTargets t = true)
    (targetsToCheck argv (verbose_flag argv)) ->
  exists p',
    (checkParameters argv >> configureTargets argv) start = Continue tt p' /\
    p'.(p_targets) = targetsToCheck argv (verbose_flag argv) /\
    p'.(p_isVerbose) = verbose_flag argv /\
    last p'.(p_trace)
    = Some (Logged (mkMessage 1 Complete "All specified targets are valid")).
Proof.
  intros argv Hvalid.
  assert (Hlen : 4 <= List.length argv) by (cbn; lia).
  assert (E4 : String.eqb first "default" = false) by by apply String.eqb_neq.
  unfold andThen. rewrite (CliFacts.checkParameters_enough argv start Hlen).
  unfold configureTargets, andThen.
  replace (4 <? List.length argv)%nat with true by done.
  cbn [logMessage p_isVerbose p_targets p_trace start].
  replace (nth 4 argv "") with first by done. rewrite E4, orb_false_r.
  rewrite check_targets_valid by done.
  cbn [set_targets logMessage p_isVerbose p_targets p_trace].
  eexists. split; [reflexivity|]. cbn [p_targets p_isVerbose p_trace].
  split_and!; [done..|]. by rewrite last_snoc.
Qed.

Lemma valid_targets_are_taken_witness :
  exists p',
    (checkParameters ["node"; "parse.js"; "raw.json"; "out.json"; "go_native";
                      "shell_curl"; "-v"] >>
     configureTargets ["node"; "parse.js"; "raw.json"; "out.json"; "go_native";
                       "shell_curl"; "-v"]) start = Continue tt p' /\
    p'.(p_targets) = ["go_native"; "shell_curl"].
Proof.
  destruct (valid_targets_are_taken "node" "parse.js" "raw.json" "out.json"
              "go_native" ["shell_curl"; "-v"]) as (p' & E & Ht & _).
  - discriminate.
  - repeat constructor.
  - exists p'. split; [exact E|exact Ht].
Defined.

(** The checks never touch a file and end the process with no other
    code than 1. *)
Theorem checks_only_log argv p c p' :
  only_logged p.(p_trace) ->
  checks argv p = Exit c p' ->
  c = 1 /\ only_logged p'.(p_trace).
Proof.
  intros Hp E. destruct (CliFacts.quiet_checks argv p Hp) as [Ht Hc].
  rewrite E in Ht. split; [by eapply Hc|exact Ht].
Qed.

Lemma checks_only_log_witness :
  exists p',
    checks ["node"; "parse.js"; "raw.json"; "out.txt"] start = Exit 1 p'
    /\ only_logged p'.(p_trace).
Proof.
  eexists. 
  assert (E : checks ["node"; "parse.js"; "raw.json"; "out.txt"] start
              = Exit 1 (match checks ["node"; "parse.js"; "raw.json"; "out.txt"] start
                        with Exit _ p' => p' | Continue _ p' => p' end))
    by (vm_compute; reflexivity).
  split; [exact E|].
  exact (proj2 (checks_only_log _ start 1 _ (Forall_nil_2 _) E)).
Defined.

(** The output name is accepted exactly when it is some text followed
    by the four characters [json]: no dot is asked for, and the test is
    case sensitive. *)
Theorem output_name_accepted_iff final_spec_file p :
  checkOutputFileType final_spec_file p = Continue tt p
  <-> exists pre, final_spec_file = pre +:+ "json".
Proof.
  rewrite <- endsWith_iff. unfold checkOutputFileType.
  destruct (endsWith final_spec_file "json"); cbn; [done|].
  split; [discriminate|discriminate].
Qed.

End CliMore.

Module CliFirstFacts.
Import Cli.

Lemma last_in_drop (argv : list string) d :
  4 < List.length argv -> List.last argv d ∈ drop 4 argv.
Proof.
  intros Hlen.
  destruct argv as [|a [|b [|c [|e rest]]]]; cbn in Hlen; try lia.
  change (drop 4 (a :: b :: c :: e :: rest)) with rest.
  destruct rest as [|x rest]; [cbn in Hlen; lia|].
  change (List.last (a :: b :: c :: e :: x :: rest) d) with (List.last (x :: rest) d).
  clear. revert x. induction rest as [|y rest IH]; intros x.
  - apply elem_of_cons; by left.
  - apply elem_of_cons; right. apply (IH y).
Qed.

(** In the first variant the verbosity flag is checked as if it were a
    target: a run with the flag and a target list that does not start
    with [default] always ends with exit code 1. *)
Theorem first_variant_rejects_verbose argv p
    (Hlen : 4 < List.length argv)
    (Hfirst : nth 4 argv "" <> "default")
    (Hflag : verbose_flag argv = true) :
  exists p', CliFirst.configureTargets argv p = Exit 1 p'.
Proof.
  unfold CliFirst.configureTargets, andThen.
  apply Nat.ltb_lt in Hlen as Hlt. rewrite Hlt.
  apply String.eqb_neq in Hfirst. rewrite Hfirst.
  cbn [logMessage]. 
  match goal with
  | |- context [check_targets ?ts ?q] =>
      destruct (CliFacts.check_targets_invalid ts q) as (bad & p' & _ & _ & E & _)
  end.
  - exists (last_arg argv). split; [by apply last_in_drop|].
    unfold verbose_flag in Hflag. apply orb_true_iff in Hflag as [H|H];
      apply String.eqb_eq in H; by rewrite H.
  - rewrite E. by exists p'.
Qed.

Lemma first_variant_rejects_verbose_witness :
  exists p',
    CliFirst.configureTargets
      ["node"; "parse.js"; "raw.json"; "out.json"; "go_native"; "-v"] start
    = Exit 1 p'.
Proof.
  apply (first_variant_rejects_verbose
           ["node"; "parse.js"; "raw.json"; "out.json"; "go_native"; "-v"] start).
  - cbn. lia.
  - discriminate.
  - reflexivity.
Defined.

End CliFirstFacts.

(** * Properties of the file stages *)

Module FilesFacts.
Import Files.

Local Notation "m >> k" := (andThen m (fun _ => k))
  (at level 100, right associativity).

Lemma written_app a b : written (a ++ b) = written a ++ written b.
Proof. unfold written. by rewrite omap_app. Qed.

Lemma appends_andThen {A B} (m : T A) (f : A -> T B) (Q1 Q2 Q : list action -> Prop) :
  appends m Q1 -> (forall a, appends (f a) Q2) ->
  (forall n1, Q1 n1 -> Q (n1)) ->
  (forall n1 n2, Q1 n1 -> Q2 n2 -> Q (n1 ++ n2)) ->
  appends (andThen m f) Q.
Proof.
  intros Hm Hf Hstop Hboth w. unfold andThen.
  destruct (Hm w) as (n1 & E1 & HQ1).
  destruct (m w) as [a w1|e w1|e w1|c w1]; cbn in *;
    try (exists n1; split; [done|by apply Hstop]).
  destruct (Hf a w1) as (n2 & E2 & HQ2).
  exists (n1 ++ n2). split; [by rewrite E2, E1, app_assoc|by apply Hboth].
Qed.

Lemma no_write_andThen {A B} (m : T A) (f : A -> T B) :
  appends m no_write -> (forall a, appends (f a) no_write) ->
  appends (andThen m f) no_write.
Proof.
  intros Hm Hf. eapply appends_andThen; [exact Hm|exact Hf|done|].
  intros n1 n2 H1 H2. unfold no_write in *. by rewrite written_app, H1, H2.
Qed.

Lemma no_write_logMessage msg n mt : appends (logMessage msg n mt) no_write.
Proof. intros w. by eexists [_]. Qed.

Lemma no_write_act a :
  match a with WriteFile _ _ => False | _ => True end -> appends (act a) no_write.
Proof. intros Ha w. exists [a]. split; [done|]. by destruct a. Qed.

Lemma no_write_pure {A} (a : A) : appends (pure a) no_write.
Proof. intros w. exists []. by rewrite app_nil_r. Qed.

Lemma no_write_raise {A} e : appends (@raise A e) no_write.
Proof. intros w. exists []. by rewrite app_nil_r. Qed.

Lemma no_write_exit {A} c : appends (@exit A c) no_write.
Proof. intros w. exists []. by rewrite app_nil_r. Qed.

Lemma no_write_try_catch m handler :
  appends m no_write -> (forall e, appends (handler e) no_write) ->
  appends (try_catch m handler) no_write.
Proof.
  intros Hm Hh w. unfold try_catch. destruct (Hm w) as (n1 & E1 & H1).
  destruct (m w) as [a w1|e w1|e w1|c w1]; cbn in *; try by exists n1.
  destruct (Hh e w1) as (n2 & E2 & H2).
  exists (n1 ++ n2). split; [by rewrite E2, E1, app_assoc|].
  unfold no_write in *. by rewrite written_app, H1, H2.
Qed.

Section WorldFacts.

Variable existsSync : string -> bool.
Variable unlinkSync : string -> bool.
Variable readFile : string -> option string.
Variable safeLoad : string -> option (option json).
Variable parse : string -> option json.
Variable getEndpointSnippets :
  heap -> value -> string -> string -> list string -> option (list snippet).
Variable hash : heap -> value -> string.
Variable stringify : heap -> value -> string.
Variable writeFile : string -> string -> bool.
Variable describe : failure -> string.

Lemma no_write_report e : appends (report describe e) no_write.
Proof.
  unfold report. apply no_write_andThen; [apply no_write_logMessage|intros _].
  apply no_write_exit.
Qed.

Lemma no_write_enrich doc : appends (enrich getEndpointSnippets doc) no_write.
Proof.
  intros w. unfold enrich.
  destruct (match doc with Some j => load j initial_state | None => _ end)
    as [schema s|e s]; [|exists []; by rewrite app_nil_r].
  destruct (enrichSchema _ _ _ _ _) as [v s'|e s']; cbn;
    (eexists; split; [reflexivity|]);
    unfold no_write, written; induction (st_log s') as [|m l IH]; done.
Qed.

(** The handler of an exception ends the process with code 1. *)
Lemma report_exits e w : exists w', report describe e w = Exited 1 w'.
Proof. unfold report, andThen. cbn. eauto. Qed.

(** Given the array [targets] where the file name belongs,
    [addSamplesExport] throws after the engine ran and writes nothing. *)
Lemma addSamplesExport_array doc xs w :
  (exists e w', addSamplesExport getEndpointSnippets hash stringify writeFile
                  doc (ArgArray xs) w = Raised e w') /\
  exists new,
    (world_of (addSamplesExport getEndpointSnippets hash stringify writeFile
                 doc (ArgArray xs) w)).(w_actions) = w.(w_actions) ++ new
    /\ no_write new.
Proof.
  unfold addSamplesExport, andThen. cbn [logMessage act].
  set (w1 := mkWorld _ _ _).
  destruct (no_write_enrich doc w1) as (new & Enew & Hnew).
  destruct (enrich getEndpointSnippets doc w1) as [[h v] w2|e w2|e w2|c w2] eqn:E;
    cbn in Enew |- *.
  - split; [by eexists _, _|]. eexists (_ :: new). split.
    + rewrite Enew. by rewrite <- app_assoc.
    + done.
  - split; [by eexists _, _|]. eexists (_ :: new). split.
    + rewrite Enew. by rewrite <- app_assoc.
    + done.
  - exfalso. unfold enrich in E. by repeat case_match.
  - exfalso. unfold enrich in E. by repeat case_match.
Qed.

(** For a raw specification named [*.yml] or [*.yaml] the run never
    writes a file and always ends with exit code 1: when the file is read
    and parsed, [processYAMLSpecification] passes [targets] where
    [addSamplesExport] expects the output name, and the call of [replace]
    on it throws after the engine has run. *)
Theorem yaml_input_never_writes raw_spec_file final_spec_file w
    (Hyaml : endsWith raw_spec_file "yml" || endsWith raw_spec_file "yaml" = true) :
  exists w' new,
    processSpecificationToFile readFile safeLoad parse getEndpointSnippets
      hash stringify writeFile describe raw_spec_file final_spec_file w
    = Exited 1 w' /\
    w'.(w_actions) = w.(w_actions) ++ new /\
    written new = [].
Proof.
  unfold processSpecificationToFile. rewrite Hyaml.
  unfold try_catch, processYAMLSpecification, andThen. cbn [logMessage act].
  set (w1 := mkWorld _ _ _).
  assert (Hw1 : w_actions w1
                = w_actions w ++ [Logged (mkMessage 0 Progress "Converting YAML file...");
                                  ReadFile raw_spec_file]).
  { cbn. by rewrite <- app_assoc. }
  destruct (readFile raw_spec_file) as [text|].
  2:{ cbn [raise]. destruct (report_exits ReadFailed w1) as [w' E]. rewrite E.
      destruct (no_write_report ReadFailed w1) as (n & En & Hn). rewrite E in En.
      cbn [world_of] in En. eexists w', _. split; [done|]. split.
      - rewrite En, Hw1, <- app_assoc. reflexivity.
      - unfold no_write in Hn. by rewrite written_app, Hn. }
  destruct (safeLoad text) as [doc|].
  2:{ cbn [raise]. destruct (report_exits ParseFailed w1) as [w' E]. rewrite E.
      destruct (no_write_report ParseFailed w1) as (n & En & Hn). rewrite E in En.
      cbn [world_of] in En. eexists w', _. split; [done|]. split.
      - rewrite En, Hw1, <- app_assoc. reflexivity.
      - unfold no_write in Hn. by rewrite written_app, Hn. }
  cbn [w1 w_isVerbose w_targets w_actions]. set (w2 := mkWorld _ _ _).
  destruct (addSamplesExport_array doc (w_targets w) w2)
    as ((e & w3 & Eadd) & (n3 & En3 & Hn3)).
  rewrite Eadd in En3 |- *. cbn [world_of] in En3.
  destruct (report_exits e w3) as [w' E]. rewrite E.
  destruct (no_write_report e w3) as (n & En & Hn). rewrite E in En. cbn [world_of] in En.
  eexists w', _. split; [done|]. split.
  - rewrite En, En3. cbn [w2 w_actions]. rewrite <- !app_assoc. reflexivity.
  - unfold no_write in *. cbn. by rewrite !written_app, Hn3, Hn.
Qed.

(** For a raw specification with another name (read as JSON), a file is
    written only after the text was read and parsed and the engine
    returned; then exactly one write is issued: its name is the requested
    name with the first [[contenthash]] replaced by the fingerprint of the
    enriched document, its content the enriched document.  When reading,
    parsing or the engine fails, the exception escapes the callback and
    nothing is written. *)
Theorem json_input_writes_after_enrichment raw_spec_file final_spec_file w
    (Hjson : endsWith raw_spec_file "yml" || endsWith raw_spec_file "yaml" = false) :
  let r := processSpecificationToFile readFile safeLoad parse getEndpointSnippets
             hash stringify writeFile describe raw_spec_file final_spec_file w in
  exists new,
    (world_of r).(w_actions) = w.(w_actions) ++ new /\
    ((written new = [] /\ exists e w', r = Crashed e w') \/
     (exists data j v s',
        readFile raw_spec_file = Some data /\
        parse data = Some j /\
        enrichSchema getEndpointSnippets w.(w_targets) w.(w_isVerbose)
          (root j) (parsed j) = Done v s' /\
        written new
        = [(replace_first "[contenthash]" (hash s'.(st_heap) v) final_spec_file,
            stringify s'.(st_heap) v)])).
Proof.
  intros r. unfold r, processSpecificationToFile. rewrite Hjson.
  unfold try_catch, processJSONSpecification, andThen, in_callback.
  cbn [logMessage act]. set (w1 := mkWorld _ _ _).
  assert (Hw1 : w_actions w1
                = w_actions w ++ [Logged (mkMessage 0 Progress "Parsing JSON file...");
                                  ReadFile raw_spec_file]).
  { cbn. by rewrite <- app_assoc. }
  destruct (readFile raw_spec_file) as [data|] eqn:Eread.
  2:{ cbn [raise world_of]. eexists. split; [exact Hw1|]. left. split; [done|eauto]. }
  destruct (parse data) as [j|] eqn:Eparse.
  2:{ cbn [raise world_of]. eexists. split; [exact Hw1|]. left. split; [done|eauto]. }
  cbn [w1 w_isVerbose w_targets w_actions]. set (w2 := mkWorld _ _ _).
  unfold addSamplesExport, andThen. cbn [logMessage act].
  set (w3 := mkWorld _ _ _). unfold enrich. rewrite load_parsed.
  cbn [w3 w2 w_isVerbose w_targets w_actions].
  assert (Hlog : forall l : list message, written (Logged <$> l) = []).
  { intros l. unfold written. induction l; done. }
  destruct (enrichSchema getEndpointSnippets (w_targets w) (w_isVerbose w)
              (root j) (parsed j)) as [v s'|e s'] eqn:Erun; cbn [final_state fst snd].
  - set (name := replace_first _ _ _). set (out := stringify _ _).
    cbn [act logMessage]. destruct (writeFile name out);
      cbn [act logMessage crash world_of w_actions w_isVerbose w_targets];
      (eexists; split; [rewrite <- !app_assoc; reflexivity|]);
      right; exists data, j, v, s'; (split_and!; [done..|]);
      cbn; rewrite !written_app, Hlog; done.
  - cbn [world_of w_actions]. eexists. split; [rewrite <- !app_assoc; reflexivity|].
    left. split; [|eauto]. by rewrite !written_app, Hlog.
Qed.

(** [removeExistingFinalSpec] writes nothing and removes at most one
    file, [./specPath], and only after [existsSync] reported it; it
    returns, unless the removal throws, in which case the process ends
    with code 1. *)
Theorem removeExistingFinalSpec_removes_one_path specPath final_spec_file w :
  let r := removeExistingFinalSpec existsSync unlinkSync describe
             specPath final_spec_file w in
  exists new,
    (world_of r).(w_actions) = w.(w_actions) ++ new /\
    written new = [] /\
    (forall path, UnlinkSync path ∈ new ->
       path = "./" +:+ specPath /\ existsSync path = true) /\
    (r = Returned tt (world_of r) \/
     r = Exited 1 (world_of r) /\ existsSync ("./" +:+ specPath) = true
     /\ unlinkSync ("./" +:+ specPath) = false).
Proof.
  intros r. unfold r, removeExistingFinalSpec, try_catch, andThen.
  cbn [logMessage act].
  destruct (existsSync ("./" +:+ specPath)) eqn:Eex;
    [destruct (unlinkSync ("./" +:+ specPath)) eqn:Eun|];
    cbn [logMessage act pure raise exit andThen world_of w_actions w_isVerbose w_targets];
    (eexists; split; [rewrite <- !app_assoc; reflexivity|]);
    (split; [done|]); (split; [|by auto]);
    intros path Hin; cbn in Hin;
    repeat (apply elem_of_cons in Hin as [Hin|Hin]; [try discriminate|]);
    try (by apply elem_of_nil in Hin);
    injection Hin as ->; by rewrite Eex.
Qed.

End WorldFacts.

(** ** Instances *)

Lemma yaml_input_never_writes_witness :
  exists w' new,
    processSpecificationToFile
      (fun _ => Some "paths: {}") (fun _ => Some (Some PetsExample.document))
      (fun _ => None) PetsExample.generator (fun _ _ => "0a1b") (fun _ _ => "{}")
      (fun _ _ => true) (fun _ => "TypeError")
      "spec.yaml" "out.[contenthash].json" (mkWorld false targets [])
    = Exited 1 w' /\
    w'.(w_actions) = [] ++ new /\
    written new = [].
Proof.
  apply (yaml_input_never_writes
           (fun _ => Some "paths: {}") (fun _ => Some (Some PetsExample.document))
           (fun _ => None) PetsExample.generator (fun _ _ => "0a1b") (fun _ _ => "{}")
           (fun _ _ => true) (fun _ => "TypeError")
           "spec.yaml" "out.[contenthash].json" (mkWorld false targets [])).
  reflexivity.
Defined.

Lemma json_input_writes_after_enrichment_witness :
  let r := processSpecificationToFile
             (fun _ => Some "{}") (fun _ => None)
             (fun _ => Some PetsExample.document) PetsExample.generator
             (fun _ _ => "0a1b") (fun _ _ => "{}")
             (fun _ _ => true) (fun _ => "TypeError")
             "spec.json" "out.[contenthash].json" (mkWorld false targets []) in
  exists new,
    (world_of r).(w_actions) = [] ++ new /\
    written new = [("out.0a1b.json", "{}")].
Proof.
  intros r.
  destruct (json_input_writes_after_enrichment
              (fun _ => Some "{}") (fun _ => None)
              (fun _ => Some PetsExample.document) PetsExample.generator
              (fun _ _ => "0a1b") (fun _ _ => "{}")
              (fun _ _ => true) (fun _ => "TypeError")
              "spec.json" "out.[contenthash].json" (mkWorld false targets []))
    as (new & Hnew & [[_ (e & w' & Hcrash)] | (data & j & v & s' & _ & _ & _ & Hw)]).
  - reflexivity.
  - vm_compute in Hcrash. discriminate Hcrash.
  - exists new. split; [exact Hnew|]. rewrite Hw. vm_compute. reflexivity.
Defined.

End FilesFacts.
